(** * python-service-launcher: memory limits, RSS watchdog, command line and
      environment of the launched process

    A shallow embedding of the Go package [launchlib]
    (memory.go, watchdog.go, process.go, cpu.go, config.go) together with the
    properties its specification states about it. *)

From Stdlib Require Import ZArith Lia Bool List Ascii String.
From Stdlib Require Import SpecFloat DecimalString.
From stdpp Require Import base option list strings gmap.

Local Open Scope Z_scope.

(** ** float64

    Go's [float64] is IEEE-754 binary64.  The data type is the Standard
    Library's [spec_float] (sign, 53-bit mantissa, exponent, or a special
    value).  Every finite binary64 value is an integer multiple of
    [2^-1074] with at most 53 significant bits, so arithmetic is done on the
    exact rational result, written [n / d] in units of [2^-1074], which is
    then rounded to the nearest such multiple, ties to even. *)

Module F64.

Definition float64 := spec_float.

(** The exact value [m * 2^e], as a fraction [fnum m e / fden e] in units of
    [2^-1074]. *)
Definition fnum (m : positive) (e : Z) : Z := Z.pos m * 2 ^ Z.max 0 (e + 1074).
Definition fden (e : Z) : Z := 2 ^ Z.max 0 (- (e + 1074)).

(** [n / d] rounded to the nearest integer, ties to the even one
    ([0 <= n], [0 < d]). *)
Definition rne_div (n d : Z) : Z :=
  let q := n / d in
  let r := n mod d in
  if 2 * r <? d then q
  else if d <? 2 * r then q + 1
  else if Z.even q then q else q + 1.

(** [n / d] rounded to the nearest integer with at most 53 significant
    bits, ties to even: the magnitude, in units of [2^-1074], of the binary64
    value nearest to the exact result (the exponent is not yet bounded
    above). *)
Definition round_mag (n d : Z) : Z :=
  let q := n / d in
  if q <? 2 ^ 53 then rne_div n d
  else let j := Z.log2 q - 52 in rne_div n (d * 2 ^ j) * 2 ^ j.

(** The binary64 value of sign [s] and magnitude [V] (already rounded): zero,
    overflow to infinity from [2^1024] on, else the canonical mantissa and
    exponent. *)
Definition of_mag (s : bool) (V : Z) : float64 :=
  if V <=? 0 then S754_zero s
  else if 2 ^ 2098 <=? V then S754_infinity s
  else let j := Z.max 0 (Z.log2 V - 52) in
       S754_finite s (Z.to_pos (V / 2 ^ j)) (j - 1074).

Definition round (s : bool) (n d : Z) : float64 := of_mag s (round_mag n d).

(** [x * y] *)
Definition mul (x y : float64) : float64 :=
  match x, y with
  | S754_nan, _ | _, S754_nan => S754_nan
  | S754_infinity sx, S754_infinity sy => S754_infinity (xorb sx sy)
  | S754_infinity sx, S754_finite sy _ _ => S754_infinity (xorb sx sy)
  | S754_finite sx _ _, S754_infinity sy => S754_infinity (xorb sx sy)
  | S754_infinity _, S754_zero _ => S754_nan
  | S754_zero _, S754_infinity _ => S754_nan
  | S754_finite sx _ _, S754_zero sy => S754_zero (xorb sx sy)
  | S754_zero sx, S754_finite sy _ _ => S754_zero (xorb sx sy)
  | S754_zero sx, S754_zero sy => S754_zero (xorb sx sy)
  | S754_finite sx mx ex, S754_finite sy my ey =>
      round (xorb sx sy) (fnum mx ex * fnum my ey)
            (fden ex * fden ey * 2 ^ 1074)
  end.

(** [x / y] *)
Definition div (x y : float64) : float64 :=
  match x, y with
  | S754_nan, _ | _, S754_nan => S754_nan
  | S754_infinity _, S754_infinity _ => S754_nan
  | S754_infinity sx, S754_finite sy _ _ => S754_infinity (xorb sx sy)
  | S754_finite sx _ _, S754_infinity sy => S754_zero (xorb sx sy)
  | S754_infinity sx, S754_zero sy => S754_infinity (xorb sx sy)
  | S754_zero sx, S754_infinity sy => S754_zero (xorb sx sy)
  | S754_finite sx _ _, S754_zero sy => S754_infinity (xorb sx sy)
  | S754_zero sx, S754_finite sy _ _ => S754_zero (xorb sx sy)
  | S754_zero _, S754_zero _ => S754_nan
  | S754_finite sx mx ex, S754_finite sy my ey =>
      round (xorb sx sy) (fnum mx ex * fden ey * 2 ^ 1074)
            (fden ex * fnum my ey)
  end.

(** [x - y] *)
Definition sub (x y : float64) : float64 :=
  match x, y with
  | S754_nan, _ | _, S754_nan => S754_nan
  | S754_infinity sx, S754_infinity sy =>
      match sx, sy with true, false | false, true => x | _, _ => S754_nan end
  | S754_infinity _, _ => x
  | _, S754_infinity sy => S754_infinity (negb sy)
  | S754_zero sx, S754_zero sy =>
      match sx, sy with true, false | false, true => x | _, _ => S754_zero false end
  | S754_zero _, S754_finite sy my ey => S754_finite (negb sy) my ey
  | _, S754_zero _ => x
  | S754_finite sx mx ex, S754_finite sy my ey =>
      let a := (if sx then -1 else 1) * fnum mx ex * fden ey in
      let b := (if sy then -1 else 1) * fnum my ey * fden ex in
      round (a - b <? 0) (Z.abs (a - b)) (fden ex * fden ey)
  end.

(** The three-way comparison of the values; [None] when one is NaN. *)
Definition signed_num (x : float64) : Z :=
  match x with
  | S754_finite s m e => (if s then -1 else 1) * fnum m e
  | _ => 0
  end.
Definition pos_den (x : float64) : Z :=
  match x with
  | S754_finite _ _ e => fden e
  | _ => 1
  end.

Definition compare (x y : float64) : option comparison :=
  match x, y with
  | S754_nan, _ | _, S754_nan => None
  | S754_infinity sx, S754_infinity sy =>
      Some (match sx, sy with
            | true, false => Lt | false, true => Gt | _, _ => Eq end)
  | S754_infinity s, _ => Some (if s then Lt else Gt)
  | _, S754_infinity s => Some (if s then Gt else Lt)
  | _, _ => Some (signed_num x * pos_den y ?= signed_num y * pos_den x)
  end.

Definition eqb (x y : float64) : bool :=
  match compare x y with Some Eq => true | _ => false end.
Definition ltb (x y : float64) : bool :=
  match compare x y with Some Lt => true | _ => false end.
Definition leb (x y : float64) : bool :=
  match compare x y with Some (Lt | Eq) => true | _ => false end.

(** Conversion [float64(u)] of an unsigned 64-bit integer. *)
Definition of_uint64 (u : Z) : float64 := round false (u * 2 ^ 1074) 1.

(** The binary64 value nearest to the decimal fraction [n / d]: how a
    decimal literal or a YAML scalar such as [0.10] becomes a [float64]. *)
Definition of_ratio (n d : Z) : float64 := round false (n * 2 ^ 1074) d.

(** Conversion [uint64(f)]: the fraction is discarded.  When the truncated
    value is not a [uint64] (negative, too large, infinite or NaN) Go leaves
    the result to the implementation; [oor] is that choice. *)
Definition to_uint64 (oor : float64 -> Z) (f : float64) : Z :=
  match f with
  | S754_zero _ => 0
  | S754_finite s m e =>
      let t := fnum m e / (fden e * 2 ^ 1074) in
      if s then (if t =? 0 then 0 else oor f)
      else if t <? 2 ^ 64 then t else oor f
  | _ => oor f
  end.

(** A magnitude is representable when it has at most 53 significant bits. *)
Definition representable (V : Z) : Prop :=
  0 <= V /\ V mod 2 ^ Z.max 0 (Z.log2 V - 52) = 0.

(** Zero (of either sign) or a positive finite value. *)
Definition nonneg_finite (x : float64) : bool :=
  match x with
  | S754_zero _ => true
  | S754_finite s _ _ => negb s
  | _ => false
  end.

(** Zero or a finite value of either sign. *)
Definition is_finite (x : float64) : bool :=
  match x with
  | S754_zero _ | S754_finite _ _ _ => true
  | _ => false
  end.

End F64.

Export F64 (float64).

(** A value of binary64: a mantissa below [2^53] and an exponent the format
    has.  Go's [float64] holds no other. *)
Definition binary64 (x : float64) : bool :=
  match x with
  | S754_finite _ m e => (Z.pos m <? 2 ^ 53) && (-1074 <=? e) && (e <=? 971)
  | _ => true
  end.

(** ** Go strings and strconv

    A Go string is a sequence of bytes; [string] is a sequence of 8-bit
    characters. *)

Module GoStrings.

Definition code (c : ascii) : Z := Z.of_N (N_of_ascii c).

Definition bytes (s : string) : list ascii := list_ascii_of_string s.
Definition str (l : list ascii) : string := string_of_list_ascii l.

(** Width in bytes of the white-space rune ([unicode.IsSpace]) encoded at the
    head of [l], or [0] when the rune there is not white space: the ASCII
    ones, U+0085, U+00A0, U+1680, U+2000..U+200A, U+2028, U+2029, U+202F,
    U+205F and U+3000 in UTF-8. *)
Definition space3 (a b c : Z) : bool :=
  ((a =? 225) && (b =? 154) && (c =? 128))
  || ((a =? 226) && (b =? 128)
      && (((128 <=? c) && (c <=? 138)) || (c =? 168) || (c =? 169) || (c =? 175)))
  || ((a =? 226) && (b =? 129) && (c =? 159))
  || ((a =? 227) && (b =? 128) && (c =? 128)).
Definition space2 (a b : Z) : bool :=
  (a =? 194) && ((b =? 133) || (b =? 160)).
Definition space1 (a : Z) : bool :=
  ((9 <=? a) && (a <=? 13)) || (a =? 32).

Definition space_width (l : list ascii) : nat :=
  match map code l with
  | a :: t =>
      if space1 a then 1%nat
      else match t with
           | b :: t' =>
               if space2 a b then 2%nat
               else match t' with
                    | c :: _ => if space3 a b c then 3%nat else 0%nat
                    | [] => 0%nat
                    end
           | [] => 0%nat
           end
  | [] => 0%nat
  end.

(** The same for the rune that ends [l], given [l] reversed. *)
Definition space_width_rev (r : list ascii) : nat :=
  match map code r with
  | a :: t =>
      if space1 a then 1%nat
      else match t with
           | b :: t' =>
               if space2 b a then 2%nat
               else match t' with
                    | c :: _ => if space3 c b a then 3%nat else 0%nat
                    | [] => 0%nat
                    end
           | [] => 0%nat
           end
  | [] => 0%nat
  end.

Fixpoint trim_with (w : list ascii -> nat) (fuel : nat) (l : list ascii)
  : list ascii :=
  match fuel with
  | O => l
  | S fuel' =>
      match w l with
      | O => l
      | n => trim_with w fuel' (drop n l)
      end
  end.

(** [strings.TrimSpace] *)
Definition TrimSpace (s : string) : string :=
  let l := bytes s in
  let l1 := trim_with space_width (length l) l in
  let r := rev l1 in
  str (rev (trim_with space_width_rev (length r) r)).

Fixpoint is_prefix (p l : list ascii) : bool :=
  match p, l with
  | [], _ => true
  | a :: p', b :: l' => if Ascii.eqb a b then is_prefix p' l' else false
  | _ :: _, [] => false
  end.

(** [strings.HasPrefix] *)
Definition HasPrefix (s prefix : string) : bool :=
  is_prefix (bytes prefix) (bytes s).

(** [strings.TrimPrefix] *)
Definition TrimPrefix (s prefix : string) : string :=
  if HasPrefix s prefix then str (drop (length (bytes prefix)) (bytes s)) else s.

(** [strings.Split(s, sep)] for a one-byte separator. *)
Fixpoint split_on (sep : ascii) (cur : list ascii) (l : list ascii)
  : list string :=
  match l with
  | [] => [str (rev cur)]
  | c :: l' =>
      if Ascii.eqb c sep then str (rev cur) :: split_on sep [] l'
      else split_on sep (c :: cur) l'
  end.
Definition Split (s : string) (sep : ascii) : list string :=
  split_on sep [] (bytes s).

(** [strings.SplitN(s, sep, 2)] for a one-byte separator: cut at the first
    separator, if there is one. *)
Fixpoint cut_on (sep : ascii) (cur : list ascii) (l : list ascii)
  : list string :=
  match l with
  | [] => [str (rev cur)]
  | c :: l' =>
      if Ascii.eqb c sep then [str (rev cur); str l']
      else cut_on sep (c :: cur) l'
  end.
Definition SplitN2 (s : string) (sep : ascii) : list string :=
  cut_on sep [] (bytes s).

(** [strings.Fields]: the maximal runs of runes that are not white space.
    [skip] counts the remaining bytes of a white-space rune being consumed. *)
Fixpoint fields_go (skip : nat) (cur : list ascii) (l : list ascii)
  : list string :=
  let flush := match cur with [] => [] | _ => [str (rev cur)] end in
  match l with
  | [] => flush
  | c :: l' =>
      match skip with
      | S k => fields_go k cur l'
      | O =>
          match space_width l with
          | O => fields_go O (c :: cur) l'
          | S k => flush ++ fields_go k [] l'
          end
      end
  end.
Definition Fields (s : string) : list string := fields_go O [] (bytes s).

(** [strconv.ParseUint(s, 10, 64)]: the value, or the kind of error. *)
Inductive NumError := ErrSyntax | ErrRange.

Definition maxUint64 : Z := 2 ^ 64 - 1.

Fixpoint parse_digits (n : Z) (l : list ascii) : Z + NumError :=
  match l with
  | [] => inl n
  | c :: l' =>
      let d := code c - 48 in
      if (0 <=? d) && (d <=? 9) then
        if maxUint64 / 10 + 1 <=? n then inr ErrRange
        else let n1 := n * 10 + d in
             if maxUint64 <? n1 then inr ErrRange else parse_digits n1 l'
      else inr ErrSyntax
  end.

Definition ParseUint (s : string) : Z + NumError :=
  match bytes s with
  | [] => inr ErrSyntax
  | l => parse_digits 0 l
  end.

(** [strconv.FormatUint(n, 10)], [strconv.FormatInt(n, 10)] and
    [strconv.Itoa]. *)
Definition FormatInt (n : Z) : string := NilZero.string_of_int (Z.to_int n).
Definition FormatUint (n : Z) : string := FormatInt n.
Definition Itoa (n : Z) : string := FormatInt n.

End GoStrings.
Import GoStrings.

(** ** config.go *)

Definition MemoryMode := string.
Definition MemoryModeCgroupAware : MemoryMode := "cgroup-aware".
Definition MemoryModeFixed : MemoryMode := "fixed".
Definition MemoryModeUnmanaged : MemoryMode := "unmanaged".

Record MemoryConfig := {
  Mode : MemoryMode;
  MaxRSSPercent : float64;
  FixedLimitBytes : Z;                 (* uint64 *)
  HeapFragmentationBuffer : float64;
  MallocTrimThreshold : Z;             (* int64 *)
  MallocArenaMax : Z                   (* int *)
}.

Record WatchdogConfig := {
  Enabled : option bool;               (* *bool *)
  PollIntervalSeconds : Z;
  SoftLimitPercent : float64;
  HardLimitPercent : float64;
  GracePeriodSeconds : Z
}.

(** Modelled from the spec: the field [LaunchMode] and the constants
    [LaunchModePEX] .. [LaunchModeCommand] are read by process.go and its
    tests but declared in no source file at hand; the specification and the
    configuration reference give the six modes [pex], [module], [script],
    [uvicorn], [gunicorn] and [command] of the key [launchMode]. *)
Definition LaunchMode := string.
Definition LaunchModePEX : LaunchMode := "pex".
Definition LaunchModeModule : LaunchMode := "module".
Definition LaunchModeScript : LaunchMode := "script".
Definition LaunchModeUvicorn : LaunchMode := "uvicorn".
Definition LaunchModeGunicorn : LaunchMode := "gunicorn".
Definition LaunchModeCommand : LaunchMode := "command".

Definition ConfigTypePython : string := "python".

(** The fields of the static and custom configuration files that the
    validation and the merge read (resource limits, directories and
    sidecars are copied through unchanged and left out). *)
Record StaticLauncherConfig := {
  sConfigType : string;
  sConfigVersion : Z;
  sLaunchMode : LaunchMode;
  sExecutable : string;
  sPythonPath : string;
  sEntryPoint : string;
  sArgs : list string;
  sEnv : gmap string string;
  sPythonOpts : list string;
  sMemory : MemoryConfig;
  sWatchdog : WatchdogConfig
}.

Record CustomLauncherConfig := {
  cEnv : gmap string string;
  cPythonOpts : list string;
  cArgs : list string;
  cMemory : option MemoryConfig;       (* *MemoryConfig *)
  cWatchdog : option WatchdogConfig;   (* *WatchdogConfig *)
  DangerousDisableContainerSupport : bool
}.

Record MergedConfig := {
  cfgLaunchMode : LaunchMode;
  Executable : string;
  PythonPath : string;
  EntryPoint : string;
  Args : list string;
  Env : gmap string string;
  PythonOpts : list string;
  Memory : MemoryConfig;
  Watchdog : WatchdogConfig;
  IsContainer : bool
}.

Definition f64_zero : float64 := S754_zero false.
Definition f64_one : float64 := F64.of_uint64 1.
Definition f64_100 : float64 := F64.of_uint64 100.

Definition DefaultMemoryConfig : MemoryConfig :=
  {| Mode := MemoryModeCgroupAware;
     MaxRSSPercent := F64.of_uint64 75;
     FixedLimitBytes := 0;
     HeapFragmentationBuffer := F64.of_ratio 10 100;
     MallocTrimThreshold := 131072;
     MallocArenaMax := 2 |}.

Definition DefaultWatchdogConfig : WatchdogConfig :=
  {| Enabled := Some true;
     PollIntervalSeconds := 5;
     SoftLimitPercent := F64.of_uint64 85;
     HardLimitPercent := F64.of_uint64 95;
     GracePeriodSeconds := 30 |}.

Definition applyMemoryDefaults (config : MemoryConfig) : MemoryConfig :=
  let defaults := DefaultMemoryConfig in
  {| Mode := if String.eqb (Mode config) "" then Mode defaults else Mode config;
     MaxRSSPercent :=
       if F64.eqb (MaxRSSPercent config) f64_zero
       then MaxRSSPercent defaults else MaxRSSPercent config;
     FixedLimitBytes := FixedLimitBytes config;
     HeapFragmentationBuffer :=
       if F64.eqb (HeapFragmentationBuffer config) f64_zero
       then HeapFragmentationBuffer defaults else HeapFragmentationBuffer config;
     MallocTrimThreshold :=
       if MallocTrimThreshold config =? 0
       then MallocTrimThreshold defaults else MallocTrimThreshold config;
     MallocArenaMax :=
       if MallocArenaMax config =? 0
       then MallocArenaMax defaults else MallocArenaMax config |}.

Definition applyWatchdogDefaults (config : WatchdogConfig) : WatchdogConfig :=
  let defaults := DefaultWatchdogConfig in
  {| Enabled :=
       match Enabled config with None => Enabled defaults | e => e end;
     PollIntervalSeconds :=
       if PollIntervalSeconds config =? 0
       then PollIntervalSeconds defaults else PollIntervalSeconds config;
     SoftLimitPercent :=
       if F64.eqb (SoftLimitPercent config) f64_zero
       then SoftLimitPercent defaults else SoftLimitPercent config;
     HardLimitPercent :=
       if F64.eqb (HardLimitPercent config) f64_zero
       then HardLimitPercent defaults else HardLimitPercent config;
     GracePeriodSeconds :=
       if GracePeriodSeconds config =? 0
       then GracePeriodSeconds defaults else GracePeriodSeconds config |}.

Definition mergeMemoryConfig (static : MemoryConfig)
    (custom : option MemoryConfig) : MemoryConfig :=
  match custom with
  | None => applyMemoryDefaults static
  | Some custom =>
      applyMemoryDefaults
        {| Mode := if negb (String.eqb (Mode custom) "")
                   then Mode custom else Mode static;
           MaxRSSPercent :=
             if F64.ltb f64_zero (MaxRSSPercent custom)
             then MaxRSSPercent custom else MaxRSSPercent static;
           FixedLimitBytes :=
             if 0 <? FixedLimitBytes custom
             then FixedLimitBytes custom else FixedLimitBytes static;
           HeapFragmentationBuffer :=
             if F64.ltb f64_zero (HeapFragmentationBuffer custom)
             then HeapFragmentationBuffer custom
             else HeapFragmentationBuffer static;
           MallocTrimThreshold :=
             if negb (MallocTrimThreshold custom =? 0)
             then MallocTrimThreshold custom else MallocTrimThreshold static;
           MallocArenaMax :=
             if negb (MallocArenaMax custom =? 0)
             then MallocArenaMax custom else MallocArenaMax static |}
  end.

Definition mergeWatchdogConfig (static : WatchdogConfig)
    (custom : option WatchdogConfig) : WatchdogConfig :=
  match custom with
  | None => applyWatchdogDefaults static
  | Some custom =>
      applyWatchdogDefaults
        {| Enabled :=
             match Enabled custom with
             | Some b => Some b
             | None => Enabled static
             end;
           PollIntervalSeconds :=
             if 0 <? PollIntervalSeconds custom
             then PollIntervalSeconds custom else PollIntervalSeconds static;
           SoftLimitPercent :=
             if F64.ltb f64_zero (SoftLimitPercent custom)
             then SoftLimitPercent custom else SoftLimitPercent static;
           HardLimitPercent :=
             if F64.ltb f64_zero (HardLimitPercent custom)
             then HardLimitPercent custom else HardLimitPercent static;
           GracePeriodSeconds :=
             if 0 <? GracePeriodSeconds custom
             then GracePeriodSeconds custom else GracePeriodSeconds static |}
  end.

Inductive config_error :=
  | ErrConfigType (got : string)
  | ErrConfigVersion (got : Z)
  | ErrEmptyExecutable.

(** [validateStaticConfig], which [GetConfigsFromFiles] applies to the
    static configuration before [Launch] merges it. *)
Definition validateStaticConfig (config : StaticLauncherConfig)
  : option config_error :=
  if negb (String.eqb (sConfigType config) ConfigTypePython)
  then Some (ErrConfigType (sConfigType config))
  else if negb (sConfigVersion config =? 1)
  then Some (ErrConfigVersion (sConfigVersion config))
  else if String.eqb (sExecutable config) ""
  then Some ErrEmptyExecutable
  else None.

(** The process environment as [os.Environ] returns it: entries [KEY=value]. *)
Definition Environ := list string.

Definition env_entry (e : string) : option (string * string) :=
  match SplitN2 e "=" with
  | [k; v] => Some (k, v)
  | _ => None
  end.

(** [os.LookupEnv]: the value of the first entry for [key]. *)
Fixpoint LookupEnv (environ : Environ) (key : string) : option string :=
  match environ with
  | [] => None
  | e :: rest =>
      match env_entry e with
      | Some (k, v) => if String.eqb k key then Some v else LookupEnv rest key
      | None => LookupEnv rest key
      end
  end.

(** [MergeConfigs]: static as base, custom overrides.  On maps, [m2 ∪ m1]
    keeps the entries of [m2] where both have the key. *)
Definition MergeConfigs (environ : Environ) (static : StaticLauncherConfig)
    (custom : CustomLauncherConfig) : MergedConfig :=
  {| cfgLaunchMode := sLaunchMode static;
     Executable := sExecutable static;
     PythonPath := sPythonPath static;
     EntryPoint := sEntryPoint static;
     Args := sArgs static ++ cArgs custom;
     Env := cEnv custom ∪ sEnv static;
     PythonOpts := sPythonOpts static ++ cPythonOpts custom;
     Memory := mergeMemoryConfig (sMemory static) (cMemory custom);
     Watchdog := mergeWatchdogConfig (sWatchdog static) (cWatchdog custom);
     IsContainer :=
       if DangerousDisableContainerSupport custom then false
       else bool_decide (is_Some (LookupEnv environ "CONTAINER")) |}.

(** ** memory.go *)

Definition cgroupV2MemoryMaxPath : string := "/sys/fs/cgroup/memory.max".
Definition cgroupV1MemoryLimitPath : string :=
  "/sys/fs/cgroup/memory/memory.limit_in_bytes".
Definition cgroupV2IndicatorPath : string := "/sys/fs/cgroup/cgroup.controllers".
Definition procMemInfoPath : string := "/proc/meminfo".
Definition minimumEffectiveLimitBytes : Z := 64 * 1024 * 1024.

(** The injected view of the file system ([fs.FS]): which paths exist and
    what reading a path returns. *)
Record FS := {
  fs_Stat : string -> bool;
  fs_ReadFile : string -> option string
}.

Record MemoryLimiter := { filesystem : FS }.

Record MemoryLimits := {
  CgroupLimitBytes : Z;       (* uint64 *)
  EffectiveLimitBytes : Z;    (* uint64 *)
  SoftWarnBytes : Z;          (* uint64 *)
  HardKillBytes : Z;          (* uint64 *)
  CgroupVersion : Z;          (* int *)
  limIsContainer : bool
}.

Inductive error :=
  | ErrFixedLimitZero
  | ErrDetectCgroupVersion (cause : error)
  | ErrReadCgroupMemoryLimit (cause : error)
  | ErrUnknownMemoryMode (mode : string)
  | ErrNoCgroupController
  | ErrUnsupportedCgroupVersion (version : Z)
  | ErrReadFile (path : string)
  | ErrParseMemoryLimit (content : string) (cause : NumError)
  | ErrParseMemTotal (cause : NumError)
  | ErrMemTotalNotFound.

(** [relPath] strips the leading slash; [filepath.Clean] leaves the four
    paths above, which are already clean, as they are. *)
Definition relPath (absPath : string) : string := TrimPrefix absPath "/".

Definition detectCgroupVersion (m : MemoryLimiter) : Z + error :=
  if fs_Stat (filesystem m) (relPath cgroupV2IndicatorPath) then inl 2
  else if fs_Stat (filesystem m) (relPath cgroupV1MemoryLimitPath) then inl 1
  else inr ErrNoCgroupController.

(** Arithmetic on [uint64] wraps around. *)
Definition wrap64 (n : Z) : Z := n mod 2 ^ 64.

(** The loop of [readSystemMemory] over the lines of /proc/meminfo. *)
Fixpoint scanMemTotal (lines : list string) : Z + error :=
  match lines with
  | [] => inr ErrMemTotalNotFound
  | line :: rest =>
      if HasPrefix line "MemTotal:" then
        match Fields line with
        | _ :: field1 :: _ =>
            match ParseUint field1 with
            | inl kb => inl (wrap64 (kb * 1024))
            | inr e => inr (ErrParseMemTotal e)
            end
        | _ => scanMemTotal rest
        end
      else scanMemTotal rest
  end.

Definition readSystemMemory (m : MemoryLimiter) : Z + error :=
  match fs_ReadFile (filesystem m) (relPath procMemInfoPath) with
  | None => inr (ErrReadFile procMemInfoPath)
  | Some data => scanMemTotal (Split data "010")
  end.

Definition readCgroupMemoryLimit (m : MemoryLimiter) (cgroupVersion : Z)
  : Z + error :=
  let read path :=
    match fs_ReadFile (filesystem m) path with
    | None => inr (ErrReadFile path)
    | Some data =>
        let content := TrimSpace data in
        if String.eqb content "max" then readSystemMemory m
        else match ParseUint content with
             | inr e => inr (ErrParseMemoryLimit content e)
             | inl limit =>
                 if (cgroupVersion =? 1) && (2 ^ 60 <? limit)
                 then readSystemMemory m
                 else inl limit
             end
    end in
  if cgroupVersion =? 2 then read (relPath cgroupV2MemoryMaxPath)
  else if cgroupVersion =? 1 then read (relPath cgroupV1MemoryLimitPath)
  else inr (ErrUnsupportedCgroupVersion cgroupVersion).

Section Limits.

(** What [uint64(f)] yields when [f] is out of range is left to the
    implementation by the language; being a [uint64], it is taken modulo
    [2^64]. *)
Variable uint64_out_of_range : float64 -> Z.

Definition uint64_of_float64 (f : float64) : Z :=
  F64.to_uint64 (fun x => wrap64 (uint64_out_of_range x)) f.

(** [uint64(float64(limit) * percent / 100.0)] *)
Definition percentOf (limit : Z) (percent : float64) : Z :=
  uint64_of_float64
    (F64.div (F64.mul (F64.of_uint64 limit) percent) f64_100).

(** The value [effective] of [ComputeLimits] before the 64 MiB floor. *)
Definition reducedLimit (config : MergedConfig) (cgroupLimit : Z) : Z :=
  let base := percentOf cgroupLimit (MaxRSSPercent (Memory config)) in
  uint64_of_float64
    (F64.mul (F64.of_uint64 base)
       (F64.sub f64_one (HeapFragmentationBuffer (Memory config)))).

(** The part of [ComputeLimits] after the [switch]: effective limit and
    watchdog thresholds from [limits.CgroupLimitBytes]. *)
Definition computeThresholds (config : MergedConfig) (limits : MemoryLimits)
  : MemoryLimits :=
  let effective := reducedLimit config (CgroupLimitBytes limits) in
  let effective :=
    if effective <? minimumEffectiveLimitBytes
    then minimumEffectiveLimitBytes else effective in
  {| CgroupLimitBytes := CgroupLimitBytes limits;
     EffectiveLimitBytes := effective;
     SoftWarnBytes :=
       percentOf (CgroupLimitBytes limits) (SoftLimitPercent (Watchdog config));
     HardKillBytes :=
       percentOf (CgroupLimitBytes limits) (HardLimitPercent (Watchdog config));
     CgroupVersion := CgroupVersion limits;
     limIsContainer := limIsContainer limits |}.

Definition with_CgroupLimitBytes (limits : MemoryLimits) (v : Z) :=
  {| CgroupLimitBytes := v;
     EffectiveLimitBytes := EffectiveLimitBytes limits;
     SoftWarnBytes := SoftWarnBytes limits;
     HardKillBytes := HardKillBytes limits;
     CgroupVersion := CgroupVersion limits;
     limIsContainer := limIsContainer limits |}.

Definition with_CgroupVersion (limits : MemoryLimits) (v : Z) :=
  {| CgroupLimitBytes := CgroupLimitBytes limits;
     EffectiveLimitBytes := EffectiveLimitBytes limits;
     SoftWarnBytes := SoftWarnBytes limits;
     HardKillBytes := HardKillBytes limits;
     CgroupVersion := v;
     limIsContainer := limIsContainer limits |}.

(** [ComputeLimits] returns the limits together with the error, if any. *)
Definition ComputeLimits (m : MemoryLimiter) (config : MergedConfig)
  : MemoryLimits * option error :=
  let limits :=
    {| CgroupLimitBytes := 0; EffectiveLimitBytes := 0; SoftWarnBytes := 0;
       HardKillBytes := 0; CgroupVersion := 0;
       limIsContainer := IsContainer config |} in
  let mode := Mode (Memory config) in
  if String.eqb mode MemoryModeUnmanaged then (limits, None)
  else if String.eqb mode MemoryModeFixed then
    if FixedLimitBytes (Memory config) =? 0
    then (limits, Some ErrFixedLimitZero)
    else
      (computeThresholds config
         (with_CgroupLimitBytes limits (FixedLimitBytes (Memory config))),
       None)
  else if String.eqb mode MemoryModeCgroupAware then
    match detectCgroupVersion m with
    | inr err => (limits, Some (ErrDetectCgroupVersion err))
    | inl cgroupVersion =>
        let limits := with_CgroupVersion limits cgroupVersion in
        match readCgroupMemoryLimit m cgroupVersion with
        | inr err => (limits, Some (ErrReadCgroupMemoryLimit err))
        | inl cgroupLimit =>
            (computeThresholds config
               (with_CgroupLimitBytes limits cgroupLimit), None)
        end
    end
  else (limits, Some (ErrUnknownMemoryMode mode)).

End Limits.

(** One choice an implementation may make for [uint64(f)] out of range:
    for a negative value the two's complement of its truncation, which is
    what the conversion instruction of x86-64 yields when the truncation
    fits 64 bits. *)
Definition uint64_wraparound (f : float64) : Z :=
  match f with
  | S754_finite true m e => - (F64.fnum m e / (F64.fden e * 2 ^ 1074))
  | _ => 2 ^ 63
  end.

(** [setDefaultMap]: set a key only when the map does not have it. *)
Definition setDefaultMap (m : gmap string string) (key value : string)
  : gmap string string :=
  match m !! key with
  | Some _ => m
  | None => <[key := value]> m
  end.

(** [BuildMemoryEnv]; [NumCPU] is [runtime.NumCPU()]. *)
Definition BuildMemoryEnv (NumCPU : Z) (config : MergedConfig)
    (limits : MemoryLimits) : gmap string string :=
  let env : gmap string string := ∅ in
  if String.eqb (Mode (Memory config)) MemoryModeUnmanaged then env
  else
    let env := <["MEMORY_LIMIT_BYTES" := FormatUint (EffectiveLimitBytes limits)]> env in
    let env := <["CGROUP_LIMIT_BYTES" := FormatUint (CgroupLimitBytes limits)]> env in
    let env := <["MEMORY_MODE" := Mode (Memory config)]> env in
    let env := <["SLS_MEMORY_LIMIT_BYTES" := FormatUint (EffectiveLimitBytes limits)]> env in
    let env := <["SLS_CGROUP_LIMIT_BYTES" := FormatUint (CgroupLimitBytes limits)]> env in
    let env := <["SLS_MEMORY_MODE" := Mode (Memory config)]> env in
    let env :=
      if 0 <? MallocArenaMax (Memory config)
      then <["MALLOC_ARENA_MAX" := Itoa (MallocArenaMax (Memory config))]> env
      else env in
    let env :=
      if 0 <=? MallocTrimThreshold (Memory config)
      then <["MALLOC_TRIM_THRESHOLD_" :=
               FormatInt (MallocTrimThreshold (Memory config))]> env
      else env in
    let env := <["PYTHONMALLOC" := "malloc"]> env in
    let numCPU := Itoa NumCPU in
    let env := setDefaultMap env "OMP_NUM_THREADS" numCPU in
    let env := setDefaultMap env "MKL_NUM_THREADS" numCPU in
    let env := setDefaultMap env "OPENBLAS_NUM_THREADS" numCPU in
    let env := setDefaultMap env "NUMEXPR_MAX_THREADS" numCPU in
    env.

(** ** cpu.go *)

Definition BuildCPUEnv (cpuCount : Z) : gmap string string :=
  let s := Itoa cpuCount in
  <["OMP_NUM_THREADS" := s]>
    (<["MKL_NUM_THREADS" := s]>
       (<["OPENBLAS_NUM_THREADS" := s]>
          (<["NUMEXPR_MAX_THREADS" := s]>
             (<["SERVICE_CPU_COUNT" := s]> ∅)))).

(** ** watchdog.go *)

Inductive WatchdogState :=
  | WatchdogStateHealthy
  | WatchdogStateSoftWarning
  | WatchdogStateHardLimit
  | WatchdogStateTerminating.

(** The integer value of the state ([iota]); states are compared by it. *)
Definition state_value (s : WatchdogState) : Z :=
  match s with
  | WatchdogStateHealthy => 0
  | WatchdogStateSoftWarning => 1
  | WatchdogStateHardLimit => 2
  | WatchdogStateTerminating => 3
  end.

Definition state_String (s : WatchdogState) : string :=
  match s with
  | WatchdogStateHealthy => "healthy"
  | WatchdogStateSoftWarning => "soft_warning"
  | WatchdogStateHardLimit => "hard_limit"
  | WatchdogStateTerminating => "terminating"
  end.

Inductive Signal := SIGTERM | SIGKILL.

(** What the watchdog does to the outside, in program order.  Assignments to
    [w.state] are recorded too, so that a state held only in the middle of a
    tick stays visible. *)
Inductive Event :=
  | EvSetState (s : WatchdogState)
  | EvLogDisabled
  | EvLogStarted
  | EvLogReadFailed
  | EvLogHardLimit (rss : Z)
  | EvLogSoftWarning (rss : Z)
  | EvLogRecovered (rss : Z)
  | EvLogKillFailed
  | EvKill (pid : Z) (sig : Signal)
  | EvScheduleKill (pid : Z) (afterSeconds : Z) (sig : Signal).

Record RSSWatchdog := {
  pid : Z;
  limits : MemoryLimits;
  config : WatchdogConfig;
  state : WatchdogState
}.

Definition NewRSSWatchdog (pid : Z) (limits : MemoryLimits)
    (config : WatchdogConfig) : RSSWatchdog :=
  {| pid := pid; limits := limits; config := config;
     state := WatchdogStateHealthy |}.

Definition set_state (w : RSSWatchdog) (s : WatchdogState) : RSSWatchdog :=
  {| pid := pid w; limits := limits w; config := config w; state := s |}.

(** What one tick reads from the outside: the RSS of the process ([None]
    when reading /proc fails) and whether delivering SIGTERM would succeed. *)
Record Tick := {
  tick_rss : option Z;
  tick_kill_ok : bool
}.

(** [terminateProcess]: SIGTERM, then SIGKILL after the grace period, which
    is only scheduled when SIGTERM could be sent. *)
Definition terminateProcess (w : RSSWatchdog) (kill_ok : bool)
  : RSSWatchdog * list Event :=
  let w := set_state w WatchdogStateTerminating in
  if kill_ok then
    (w, [EvSetState WatchdogStateTerminating; EvKill (pid w) SIGTERM;
         EvScheduleKill (pid w) (GracePeriodSeconds (config w)) SIGKILL])
  else
    (w, [EvSetState WatchdogStateTerminating; EvKill (pid w) SIGTERM;
         EvLogKillFailed]).

(** [check]: one RSS check; the new watchdog, what it did, and whether it
    triggered a termination. *)
Definition check (w : RSSWatchdog) (t : Tick)
  : RSSWatchdog * list Event * bool :=
  match tick_rss t with
  | None => (w, [EvLogReadFailed], false)
  | Some rss =>
      if (HardKillBytes (limits w) <=? rss)
         && (state_value (state w) <? state_value WatchdogStateHardLimit)
      then
        let w1 := set_state w WatchdogStateHardLimit in
        let '(w2, evs) := terminateProcess w1 (tick_kill_ok t) in
        (w2, EvSetState WatchdogStateHardLimit :: EvLogHardLimit rss :: evs, true)
      else if (SoftWarnBytes (limits w) <=? rss)
              && (state_value (state w) <? state_value WatchdogStateSoftWarning)
      then
        (set_state w WatchdogStateSoftWarning,
         [EvSetState WatchdogStateSoftWarning; EvLogSoftWarning rss], false)
      else if (rss <? SoftWarnBytes (limits w))
              && (state_value (state w) =? state_value WatchdogStateSoftWarning)
      then
        (set_state w WatchdogStateHealthy,
         [EvSetState WatchdogStateHealthy; EvLogRecovered rss], false)
      else (w, [], false)
  end.

(** The polling loop of [Run] over the ticks that arrive before the context
    is cancelled: it stops at the first check that triggers. *)
Fixpoint poll (w : RSSWatchdog) (ticks : list Tick)
  : RSSWatchdog * list Event * bool :=
  match ticks with
  | [] => (w, [], false)
  | t :: rest =>
      let '(w1, evs, triggered) := check w t in
      if triggered then (w1, evs, true)
      else let '(w2, evs2, r) := poll w1 rest in (w2, evs ++ evs2, r)
  end.

Definition Run (w : RSSWatchdog) (ticks : list Tick)
  : RSSWatchdog * list Event * bool :=
  if HardKillBytes (limits w) =? 0 then (w, [EvLogDisabled], false)
  else let '(w1, evs, r) := poll w ticks in (w1, EvLogStarted :: evs, r).

(** [check] applied to every tick of a sequence, whether or not an earlier
    one triggered: the states after each tick and everything done. *)
Fixpoint checks (w : RSSWatchdog) (ticks : list Tick)
  : list WatchdogState * list Event :=
  match ticks with
  | [] => ([], [])
  | t :: rest =>
      let '(w1, evs, _) := check w t in
      let '(sts, evs2) := checks w1 rest in
      (state w1 :: sts, evs ++ evs2)
  end.

(** ** process.go *)

(** [os.Expand] of the Go standard library, which [os.ExpandEnv] applies with
    [os.Getenv] as the mapping. *)
Module OsExpand.

Definition isShellSpecialVar (c : ascii) : bool :=
  existsb (Ascii.eqb c)
    (bytes "*#$@!?-0123456789").

Definition isAlphaNum (c : ascii) : bool :=
  let n := code c in
  (n =? 95) || ((48 <=? n) && (n <=? 57)) || ((97 <=? n) && (n <=? 122))
  || ((65 <=? n) && (n <=? 90)).

(** Scan to the closing brace: [s] is what follows the opening brace, [i]
    the index of its head in the text after the dollar sign. *)
Fixpoint scan_brace (acc : list ascii) (i : nat) (s : list ascii)
  : list ascii * nat :=
  match s with
  | [] => ([], 1%nat)                         (* bad syntax: eat "${" *)
  | c :: s' =>
      if Ascii.eqb c "}" then
        if Nat.eqb i 1 then ([], 2%nat)       (* bad syntax: eat "${}" *)
        else (rev acc, S i)
      else scan_brace (c :: acc) (S i) s'
  end.

Fixpoint scan_alnum (s : list ascii) : list ascii :=
  match s with
  | c :: s' => if isAlphaNum c then c :: scan_alnum s' else []
  | [] => []
  end.

(** [getShellName]: the name that starts [s] (not empty) and the number of
    bytes consumed. *)
Definition getShellName (s : list ascii) : list ascii * nat :=
  match s with
  | [] => ([], 0%nat)
  | c0 :: s1 =>
      if Ascii.eqb c0 "{" then
        match s1 with
        | c1 :: c2 :: _ =>
            if isShellSpecialVar c1 && Ascii.eqb c2 "}" then ([c1], 3%nat)
            else scan_brace [] 1 s1
        | _ => scan_brace [] 1 s1
        end
      else if isShellSpecialVar c0 then ([c0], 1%nat)
      else let name := scan_alnum s in (name, length name)
  end.

(** The loop of [Expand]; [skip] counts the bytes of a reference that are
    still to be passed over. *)
Fixpoint expand_go (mapping : string -> string) (skip : nat) (s : list ascii)
  : list ascii :=
  match s with
  | [] => []
  | c :: rest =>
      match skip with
      | S k => expand_go mapping k rest
      | O =>
          match rest with
          | _ :: _ =>
              if Ascii.eqb c "$" then
                let '(name, w) := getShellName rest in
                (match name, w with
                 | [], S _ => []            (* invalid syntax: eaten *)
                 | [], O => [c]             (* a dollar sign with no name *)
                 | _, _ => bytes (mapping (str name))
                 end) ++ expand_go mapping w rest
              else c :: expand_go mapping O rest
          | [] => [c]
          end
      end
  end.

Definition Expand (s : string) (mapping : string -> string) : string :=
  str (expand_go mapping O (bytes s)).

End OsExpand.

(** [os.Getenv]: the empty string when the variable is not set. *)
Definition Getenv (environ : Environ) (key : string) : string :=
  default "" (LookupEnv environ key).

Definition ExpandEnv (environ : Environ) (s : string) : string :=
  OsExpand.Expand s (Getenv environ).

Definition ResolveEnvVarPath (environ : Environ) (path : string) : string :=
  ExpandEnv environ path.

Definition setDefault (env : gmap string string) (key value : string)
  : gmap string string :=
  match env !! key with
  | Some _ => env
  | None => <[key := value]> env
  end.

(** The inherited layer of [BuildProcessEnv]: the entries of [os.Environ] that
    have an equals sign, later ones over earlier ones. *)
Definition inheritedEnv (environ : Environ) : gmap string string :=
  foldl (fun env e =>
           match env_entry e with
           | Some (k, v) => <[k := v]> env
           | None => env
           end) ∅ environ.

(** [BuildProcessEnv].  The Go function returns the entries [k=v] of the map
    built here as a slice, in the unspecified order of map iteration. *)
Definition BuildProcessEnv (environ : Environ) (NumCPU : Z)
    (config : MergedConfig) (limits : MemoryLimits)
    (serviceName serviceVersion : string) : gmap string string :=
  let env := inheritedEnv environ in
  let memEnv := BuildMemoryEnv NumCPU config limits in
  let env := memEnv ∪ env in
  let env := Env config ∪ env in
  let env := <["SERVICE_NAME" := serviceName]> env in
  let env := <["SERVICE_VERSION" := serviceVersion]> env in
  let env := <["SLS_SERVICE_NAME" := serviceName]> env in
  let env := <["SLS_SERVICE_VERSION" := serviceVersion]> env in
  let env := setDefault env "PYTHONDONTWRITEBYTECODE" "1" in
  let env := setDefault env "PYTHONUNBUFFERED" "1" in
  let env := setDefault env "TMPDIR" "var/data/tmp" in
  env.

(** [buildPythonArgs]: python, its options, the extra arguments that are not
    empty, then the arguments of the configuration. *)
Definition buildPythonArgs (environ : Environ) (config : MergedConfig)
    (extraArgs : list string) : list string :=
  let pythonPath :=
    if String.eqb (PythonPath config) "" then "python3"
    else PythonPath config in
  [ResolveEnvVarPath environ pythonPath]
    ++ PythonOpts config
    ++ filter (fun a => a ≠ "") extraArgs
    ++ Args config.

Definition BuildCommandArgs (environ : Environ) (config : MergedConfig)
  : list string :=
  let mode := cfgLaunchMode config in
  if String.eqb mode LaunchModeCommand then
    Executable config :: Args config
  else if String.eqb mode LaunchModeModule then
    buildPythonArgs environ config ["-m"; Executable config]
  else if String.eqb mode LaunchModeScript then
    buildPythonArgs environ config [""; Executable config]
  else if String.eqb mode LaunchModeUvicorn then
    let appSpec :=
      if negb (String.eqb (EntryPoint config) "")
      then Executable config +:+ ":" +:+ EntryPoint config
      else Executable config in
    buildPythonArgs environ config ["-m"; "uvicorn"; appSpec]
  else if String.eqb mode LaunchModeGunicorn then
    let appSpec :=
      if negb (String.eqb (EntryPoint config) "")
      then Executable config +:+ ":" +:+ EntryPoint config
      else Executable config in
    buildPythonArgs environ config ["-m"; "gunicorn"; appSpec]
  else
    if negb (String.eqb (PythonPath config) "") then
      [ResolveEnvVarPath environ (PythonPath config)]
        ++ PythonOpts config ++ [Executable config] ++ Args config
    else
      [Executable config] ++ Args config.

(** A file system given by the list of its files, as the tests build it. *)
Definition testFS (files : list (string * string)) : FS :=
  let m : gmap string string := list_to_map files in
  {| fs_Stat := fun p => bool_decide (is_Some (m !! p));
     fs_ReadFile := fun p => m !! p |}.

(** The default policy of the specification: 75 % target, 10 % fragmentation
    buffer, thresholds at 85 % and 95 %. *)
Definition default_policy (config : MergedConfig) : Prop :=
  MaxRSSPercent (Memory config) = F64.of_uint64 75
  /\ HeapFragmentationBuffer (Memory config) = F64.of_ratio 10 100
  /\ SoftLimitPercent (Watchdog config) = F64.of_uint64 85
  /\ HardLimitPercent (Watchdog config) = F64.of_uint64 95.

(** The raw limit [L] reaches [ComputeLimits] either as the fixed limit or as
    what the cgroup probe reads. *)
Definition limit_source (m : MemoryLimiter) (config : MergedConfig) (L : Z)
  : Prop :=
  (Mode (Memory config) = MemoryModeFixed
   /\ FixedLimitBytes (Memory config) = L /\ L <> 0)
  \/ (Mode (Memory config) = MemoryModeCgroupAware
      /\ exists v, detectCgroupVersion m = inl v
                   /\ readCgroupMemoryLimit m v = inl L).

Definition config_of (mem : MemoryConfig) (wd : WatchdogConfig) : MergedConfig :=
  {| cfgLaunchMode := LaunchModePEX; Executable := "service/bin/app.pex";
     PythonPath := ""; EntryPoint := ""; Args := []; Env := ∅;
     PythonOpts := []; Memory := mem; Watchdog := wd; IsContainer := true |}.

Definition fixed_memory (limit : Z) : MemoryConfig :=
  {| Mode := MemoryModeFixed;
     MaxRSSPercent := F64.of_uint64 75;
     FixedLimitBytes := limit;
     HeapFragmentationBuffer := F64.of_ratio 10 100;
     MallocTrimThreshold := 131072;
     MallocArenaMax := 2 |}.

Definition cgroup_v2_fs (memory_max : string) : FS :=
  testFS [("sys/fs/cgroup/cgroup.controllers", "cpu memory io");
          ("sys/fs/cgroup/memory.max", memory_max)].

(** ** Vocabulary of the properties *)

(** What the specification's first scenario computes, as a proposition on
    the result of [ComputeLimits] for a raw limit of 1 GiB. *)
Definition one_GiB_limits oor (config : MergedConfig)
    (r : MemoryLimits * option error) : Prop :=
  r.2 = None
  /\ CgroupLimitBytes r.1 = 1073741824
  /\ percentOf oor 1073741824 (MaxRSSPercent (Memory config)) = 805306368
  /\ EffectiveLimitBytes r.1 = 724775731
  /\ SoftWarnBytes r.1 = 912680550
  /\ HardKillBytes r.1 = 1020054732
  /\ SoftWarnBytes r.1
     = percentOf oor (CgroupLimitBytes r.1) (SoftLimitPercent (Watchdog config))
  /\ HardKillBytes r.1
     = percentOf oor (CgroupLimitBytes r.1) (HardLimitPercent (Watchdog config)).

Definition zero_memory (mode : MemoryMode) (limit : Z) : MemoryConfig :=
  {| Mode := mode; MaxRSSPercent := f64_zero; FixedLimitBytes := limit;
     HeapFragmentationBuffer := f64_zero; MallocTrimThreshold := 0;
     MallocArenaMax := 0 |}.

Definition watchdog_percent (soft hard : float64) : WatchdogConfig :=
  {| Enabled := None; PollIntervalSeconds := 0; SoftLimitPercent := soft;
     HardLimitPercent := hard; GracePeriodSeconds := 0 |}.

(** A static configuration in [fixed] mode that leaves everything else to
    the defaults, and two custom configurations: an empty one and one that
    overrides the watchdog percentages. *)
Definition static_fixed (limit : Z) : StaticLauncherConfig :=
  {| sConfigType := ConfigTypePython; sConfigVersion := 1;
     sLaunchMode := LaunchModePEX; sExecutable := "service/bin/app.pex";
     sPythonPath := ""; sEntryPoint := ""; sArgs := []; sEnv := ∅;
     sPythonOpts := []; sMemory := zero_memory MemoryModeFixed limit;
     sWatchdog := watchdog_percent f64_zero f64_zero |}.

Definition no_custom : CustomLauncherConfig :=
  {| cEnv := ∅; cPythonOpts := []; cArgs := []; cMemory := None;
     cWatchdog := None; DangerousDisableContainerSupport := false |}.

Definition custom_percent (soft hard : float64) : CustomLauncherConfig :=
  {| cEnv := ∅; cPythonOpts := []; cArgs := []; cMemory := None;
     cWatchdog := Some (watchdog_percent soft hard);
     DangerousDisableContainerSupport := false |}.

Definition empty_limiter : MemoryLimiter := {| filesystem := testFS [] |}.

(** The invariant of the specification on the thresholds. *)
Definition thresholds_strictly_ordered (l : MemoryLimits) : Prop :=
  SoftWarnBytes l <> 0 -> HardKillBytes l <> 0 ->
  SoftWarnBytes l < HardKillBytes l <= CgroupLimitBytes l.

(** [L * p / 100 * (1 - b) < 64 MiB] in exact arithmetic, where a finite
    [float64] [x] has the value [signed_num x / (pos_den x * 2^1074)]: both
    sides multiplied by the denominators. *)
Definition reduction_below_floor (L : Z) (p b : float64) : Prop :=
  L * F64.signed_num p * (2 ^ 1074 * F64.pos_den b - F64.signed_num b)
  < minimumEffectiveLimitBytes * 100
    * (F64.pos_den p * 2 ^ 1074) * (F64.pos_den b * 2 ^ 1074).

(** [L * (h - s) / 100 >= g] in exact arithmetic: the exact thresholds
    are at least [g] bytes apart. *)
Definition threshold_gap (L : Z) (s h : float64) (g : Z) : Prop :=
  g * 100 * 2 ^ 1074 * F64.pos_den h * F64.pos_den s
  <= L * F64.signed_num h * F64.pos_den s
     - L * F64.signed_num s * F64.pos_den h.

Definition buffer_memory (limit : Z) (buffer : float64) : MemoryConfig :=
  {| Mode := MemoryModeFixed;
     MaxRSSPercent := F64.of_uint64 75;
     FixedLimitBytes := limit;
     HeapFragmentationBuffer := buffer;
     MallocTrimThreshold := 131072;
     MallocArenaMax := 2 |}.

Definition is_sigterm (e : Event) : bool :=
  match e with
  | EvKill _ SIGTERM => true
  | _ => false
  end.

Fixpoint sigterm_count (evs : list Event) : nat :=
  match evs with
  | [] => O
  | e :: evs' => ((if is_sigterm e then 1 else 0) + sigterm_count evs')%nat
  end.

Definition sample_limits : MemoryLimits :=
  {| CgroupLimitBytes := 1000; EffectiveLimitBytes := 675;
     SoftWarnBytes := 850; HardKillBytes := 950; CgroupVersion := 2;
     limIsContainer := true |}.

Definition sample_watchdog : RSSWatchdog :=
  NewRSSWatchdog 4242 sample_limits DefaultWatchdogConfig.

Definition reading (rss : Z) : Tick :=
  {| tick_rss := Some rss; tick_kill_ok := true |}.

(** The file [readCgroupMemoryLimit] reads for a cgroup version. *)
Definition limit_path (cgroupVersion : Z) : string :=
  if cgroupVersion =? 2 then relPath cgroupV2MemoryMaxPath
  else relPath cgroupV1MemoryLimitPath.

(** When the probe falls back to the total system memory. *)
Definition falls_back (cgroupVersion : Z) (data : string) : Prop :=
  TrimSpace data = "max"
  \/ (cgroupVersion = 1
      /\ exists limit, ParseUint (TrimSpace data) = inl limit /\ 2 ^ 60 < limit).

Definition cgroup_v1_fs (limit_in_bytes meminfo : string) : FS :=
  testFS [("sys/fs/cgroup/memory/memory.limit_in_bytes", limit_in_bytes);
          ("proc/meminfo", meminfo)].

Definition meminfo_8GB : string :=
  "MemTotal:       8192000 kB
MemFree:         4096000 kB
".

(** The interpreter that starts the command line of the Python modes. *)
Definition interpreter (environ : Environ) (config : MergedConfig) : string :=
  if String.eqb (PythonPath config) "" then "python3"
  else ResolveEnvVarPath environ (PythonPath config).

(** The application the server modules are pointed at. *)
Definition app_target (config : MergedConfig) : string :=
  if String.eqb (EntryPoint config) "" then Executable config
  else Executable config +:+ ":" +:+ EntryPoint config.

Definition unless_empty (s : string) : list string :=
  if String.eqb s "" then [] else [s].

Definition python_mode (mode : LaunchMode) : Prop :=
  mode = LaunchModeModule \/ mode = LaunchModeScript
  \/ mode = LaunchModeUvicorn \/ mode = LaunchModeGunicorn.

Definition launch_config (mode : LaunchMode) (executable pythonPath entryPoint : string)
    (pythonOpts args : list string) : MergedConfig :=
  {| cfgLaunchMode := mode; Executable := executable; PythonPath := pythonPath;
     EntryPoint := entryPoint; Args := args; Env := ∅; PythonOpts := pythonOpts;
     Memory := DefaultMemoryConfig; Watchdog := DefaultWatchdogConfig;
     IsContainer := false |}.

(** The thread-pool variables. *)
Definition thread_pool_key (k : string) : Prop :=
  k = "OMP_NUM_THREADS" \/ k = "MKL_NUM_THREADS"
  \/ k = "OPENBLAS_NUM_THREADS" \/ k = "NUMEXPR_MAX_THREADS".

Definition sample_env_limits : MemoryLimits :=
  {| CgroupLimitBytes := 1073741824; EffectiveLimitBytes := 724775731;
     SoftWarnBytes := 912680550; HardKillBytes := 1020054732;
     CgroupVersion := 0; limIsContainer := true |}.

(** * Properties *)

Lemma ComputeLimits_from_source oor m config L :
  limit_source m config L ->
  exists v,
    ComputeLimits oor m config =
    (computeThresholds oor config
       {| CgroupLimitBytes := L; EffectiveLimitBytes := 0; SoftWarnBytes := 0;
          HardKillBytes := 0; CgroupVersion := v;
          limIsContainer := IsContainer config |}, None).
Proof.
  intros [(Hm & Hf & Hz) | (Hm & v & Hd & Hr)]; unfold ComputeLimits; rewrite Hm.
  - exists 0. cbn [String.eqb MemoryModeUnmanaged MemoryModeFixed].
    change (String.eqb MemoryModeFixed MemoryModeUnmanaged) with false.
    change (String.eqb MemoryModeFixed MemoryModeFixed) with true.
    cbv iota. rewrite Hf. destruct (Z.eqb_spec L 0) as [->|_]; [done|].
    reflexivity.
  - exists v.
    change (String.eqb MemoryModeCgroupAware MemoryModeUnmanaged) with false.
    change (String.eqb MemoryModeCgroupAware MemoryModeFixed) with false.
    change (String.eqb MemoryModeCgroupAware MemoryModeCgroupAware) with true.
    cbv iota. rewrite Hd, Hr. reflexivity.
Qed.

(** C1 (as amended).  With a raw limit of 1 GiB and the default policy,
    [ComputeLimits] succeeds with effective limit 724775731 (base
    805306368 = trunc(limit * 75 / 100), then trunc(base * 0.9)), soft
    threshold 912680550 and hard threshold 1020054732; both thresholds are
    the percentage of the raw limit, not of the effective limit. *)
Theorem ComputeLimits_one_GiB oor m config :
  default_policy config ->
  limit_source m config 1073741824 ->
  one_GiB_limits oor config (ComputeLimits oor m config).
Proof.
  intros (Hp & Hb & Hs & Hh) Hsrc.
  destruct (ComputeLimits_from_source oor m config _ Hsrc) as [v ->].
  unfold one_GiB_limits, computeThresholds, reducedLimit.
  cbn [fst snd CgroupLimitBytes EffectiveLimitBytes SoftWarnBytes HardKillBytes].
  rewrite Hp, Hb, Hs, Hh.
  assert (percentOf oor 1073741824 (F64.of_uint64 75) = 805306368) as ->
    by (vm_compute; reflexivity).
  assert (percentOf oor 1073741824 (F64.of_uint64 85) = 912680550) as ->
    by (vm_compute; reflexivity).
  assert (percentOf oor 1073741824 (F64.of_uint64 95) = 1020054732) as ->
    by (vm_compute; reflexivity).
  assert (uint64_of_float64 oor
            (F64.mul (F64.of_uint64 805306368)
               (F64.sub f64_one (F64.of_ratio 10 100))) = 724775731) as ->
    by (vm_compute; reflexivity).
  repeat split.
Qed.

Lemma ComputeLimits_one_GiB_witness :
  one_GiB_limits (fun _ => 0)
    (config_of DefaultMemoryConfig DefaultWatchdogConfig)
    (ComputeLimits (fun _ => 0) {| filesystem := cgroup_v2_fs "1073741824" |}
       (config_of DefaultMemoryConfig DefaultWatchdogConfig)).
Proof.
  apply (ComputeLimits_one_GiB (fun _ => 0)
           {| filesystem := cgroup_v2_fs "1073741824" |}
           (config_of DefaultMemoryConfig DefaultWatchdogConfig)).
  - repeat split.
  - right. split; [reflexivity|]. exists 2. split; vm_compute; reflexivity.
Defined.

(** C1 as stated fails: the effective limit for 1 GiB under the default
    policy is not 724566425. *)
Lemma ComputeLimits_one_GiB_not_724566425 :
  EffectiveLimitBytes
    (ComputeLimits (fun _ => 0) {| filesystem := cgroup_v2_fs "1073741824" |}
       (config_of DefaultMemoryConfig DefaultWatchdogConfig)).1
  <> 724566425.
Proof. vm_compute. discriminate. Qed.

(** C8.  In [unmanaged] mode [ComputeLimits] returns, without error, limits
    that are zero in every field but [is_container], and [BuildMemoryEnv]
    returns the empty map. *)
Theorem unmanaged_limits_and_env oor m NumCPU config limits :
  Mode (Memory config) = MemoryModeUnmanaged ->
  ComputeLimits oor m config
  = ({| CgroupLimitBytes := 0; EffectiveLimitBytes := 0; SoftWarnBytes := 0;
        HardKillBytes := 0; CgroupVersion := 0;
        limIsContainer := IsContainer config |}, None)
  /\ BuildMemoryEnv NumCPU config limits = ∅.
Proof.
  intros Hm. unfold ComputeLimits, BuildMemoryEnv. rewrite Hm.
  change (String.eqb MemoryModeUnmanaged MemoryModeUnmanaged) with true.
  split; reflexivity.
Qed.

Lemma unmanaged_limits_and_env_witness :
  ComputeLimits (fun _ => 0) empty_limiter
    (config_of (zero_memory MemoryModeUnmanaged 0) DefaultWatchdogConfig)
  = ({| CgroupLimitBytes := 0; EffectiveLimitBytes := 0; SoftWarnBytes := 0;
        HardKillBytes := 0; CgroupVersion := 0; limIsContainer := true |},
     None)
  /\ BuildMemoryEnv 8
       (config_of (zero_memory MemoryModeUnmanaged 0) DefaultWatchdogConfig)
       sample_env_limits = ∅.
Proof.
  apply (unmanaged_limits_and_env (fun _ => 0) empty_limiter 8
           (config_of (zero_memory MemoryModeUnmanaged 0) DefaultWatchdogConfig)
           sample_env_limits).
  reflexivity.
Defined.

(** C9.  In [fixed] mode the raw limit returned is [fixed_limit_bytes], and
    an error is returned exactly when [fixed_limit_bytes] is zero. *)
Theorem fixed_limit_and_error oor m config :
  Mode (Memory config) = MemoryModeFixed ->
  CgroupLimitBytes (ComputeLimits oor m config).1
  = FixedLimitBytes (Memory config)
  /\ ((ComputeLimits oor m config).2 <> None
      <-> FixedLimitBytes (Memory config) = 0)
  /\ ((ComputeLimits oor m config).2 = Some ErrFixedLimitZero
      <-> FixedLimitBytes (Memory config) = 0).
Proof.
  intros Hm. unfold ComputeLimits. rewrite Hm.
  change (String.eqb MemoryModeFixed MemoryModeUnmanaged) with false.
  change (String.eqb MemoryModeFixed MemoryModeFixed) with true.
  cbv iota.
  destruct (Z.eqb_spec (FixedLimitBytes (Memory config)) 0) as [E|E]; cbn.
  - rewrite E. repeat split; intros; congruence.
  - repeat split; intros; congruence.
Qed.

Lemma fixed_limit_and_error_witness :
  (ComputeLimits (fun _ => 0) empty_limiter
     (config_of (fixed_memory 0) DefaultWatchdogConfig)).2
  = Some ErrFixedLimitZero
  /\ CgroupLimitBytes
       (ComputeLimits (fun _ => 0) empty_limiter
          (config_of (fixed_memory 536870912) DefaultWatchdogConfig)).1
     = 536870912.
Proof.
  split.
  - apply (fixed_limit_and_error (fun _ => 0) empty_limiter
             (config_of (fixed_memory 0) DefaultWatchdogConfig));
      reflexivity.
  - apply (fixed_limit_and_error (fun _ => 0) empty_limiter
             (config_of (fixed_memory 536870912) DefaultWatchdogConfig)).
    reflexivity.
Defined.

(** ** Facts about rounding

    Rounding to nearest is monotone and leaves representable values as they
    are; these two facts carry the bounds on the limits below. *)

Section Rounding.

Lemma div_mod_eqs n d : 0 < d -> n = d * (n / d) + n mod d /\ 0 <= n mod d < d.
Proof. intros. split; [apply Z.div_mod; lia | apply Z.mod_pos_bound; lia]. Qed.

Lemma div_frac_le n1 d1 n2 d2 :
  0 < d1 -> 0 < d2 -> n1 * d2 <= n2 * d1 -> n1 / d1 <= n2 / d2.
Proof.
  intros H1 H2 H.
  destruct (div_mod_eqs n1 d1 H1) as [E1 B1].
  destruct (div_mod_eqs n2 d2 H2) as [E2 B2].
  destruct (Z_le_gt_dec (n1 / d1) (n2 / d2)) as [|G]; [assumption|exfalso].
  assert (n2 / d2 + 1 <= n1 / d1) as G' by lia.
  assert (d1 * d2 * (n2 / d2 + 1) <= d1 * d2 * (n1 / d1)) by (apply Z.mul_le_mono_nonneg_l; nia).
  nia.
Qed.

Lemma rne_div_bounds n d : 0 < d -> n / d <= F64.rne_div n d <= n / d + 1.
Proof.
  intros. unfold F64.rne_div.
  destruct (_ <? _); [lia|]. destruct (_ <? _); [lia|]. destruct (Z.even _); lia.
Qed.

Lemma rne_div_exact k d : 0 < d -> F64.rne_div (k * d) d = k.
Proof.
  intros. unfold F64.rne_div. rewrite Z.div_mul, Z.mod_mul by lia.
  destruct (Z.ltb_spec (2 * 0) d); lia.
Qed.

Lemma rne_div_mono n1 d1 n2 d2 :
  0 < d1 -> 0 < d2 -> n1 * d2 <= n2 * d1 -> F64.rne_div n1 d1 <= F64.rne_div n2 d2.
Proof.
  intros H1 H2 H.
  pose proof (div_frac_le _ _ _ _ H1 H2 H) as Hq.
  pose proof (rne_div_bounds n1 d1 H1) as B1.
  pose proof (rne_div_bounds n2 d2 H2) as B2.
  destruct (Z.eq_dec (n1 / d1) (n2 / d2)) as [E|NE]; [|lia].
  destruct (div_mod_eqs n1 d1 H1) as [E1 R1].
  destruct (div_mod_eqs n2 d2 H2) as [E2 R2].
  assert (n1 mod d1 * d2 <= n2 mod d2 * d1) as Hr by nia.
  unfold F64.rne_div. rewrite <- E.
  set (q := n1 / d1) in *. set (r1 := n1 mod d1) in *. set (r2 := n2 mod d2) in *.
  destruct (Z.ltb_spec (2 * r1) d1); destruct (Z.ltb_spec (2 * r2) d2);
    try destruct (Z.ltb_spec d1 (2 * r1)); try destruct (Z.ltb_spec d2 (2 * r2));
    try destruct (Z.even q); try lia; exfalso; nia.
Qed.

Lemma pow2_pos k : 0 < 2 ^ k \/ k < 0.
Proof. destruct (Z_lt_le_dec k 0); [right; lia | left; apply Z.pow_pos_nonneg; lia]. Qed.

Lemma log2_bounds q : 0 < q -> 2 ^ Z.log2 q <= q < 2 ^ (Z.log2 q + 1).
Proof. intros. pose proof (Z.log2_spec q H). rewrite <- Z.add_1_r in H0. lia. Qed.

(** In the upper regime the scaled quotient lies in [2^52, 2^53]. *)
Lemma round_mag_big_range n d :
  0 < d -> 2 ^ 53 <= n / d ->
  let j := Z.log2 (n / d) - 52 in
  1 <= j /\ 2 ^ 52 <= F64.rne_div n (d * 2 ^ j) <= 2 ^ 53.
Proof.
  intros Hd Hq j.
  assert (0 < n / d) as Hq0 by lia.
  pose proof (log2_bounds _ Hq0) as [Lo Hi].
  assert (53 <= Z.log2 (n / d)) as HL.
  { change 53 with (Z.log2 (2 ^ 53)). apply Z.log2_le_mono. lia. }
  assert (1 <= j) as Hj by (unfold j; lia).
  split; [assumption|].
  assert (0 < 2 ^ j) as Hpj by (apply Z.pow_pos_nonneg; lia).
  assert (2 ^ Z.log2 (n / d) = 2 ^ 52 * 2 ^ j) as Epow.
  { rewrite <- Z.pow_add_r by lia. f_equal. unfold j. lia. }
  assert (2 ^ (Z.log2 (n / d) + 1) = 2 ^ 53 * 2 ^ j) as Epow'.
  { rewrite <- Z.pow_add_r by lia. f_equal. unfold j. lia. }
  destruct (div_mod_eqs n d Hd) as [E R].
  assert (0 < d * 2 ^ j) as Hdj by (apply Z.mul_pos_pos; lia).
  assert (d * (2 ^ 52 * 2 ^ j) <= n) as Hlo.
  { assert (d * (2 ^ 52 * 2 ^ j) <= d * (n / d))
      by (apply Z.mul_le_mono_nonneg_l; lia). lia. }
  assert (n <= d * (2 ^ 53 * 2 ^ j)) as Hhi.
  { assert (d * (n / d + 1) <= d * (2 ^ 53 * 2 ^ j))
      by (apply Z.mul_le_mono_nonneg_l; lia). lia. }
  split.
  - pose proof (rne_div_exact (2 ^ 52) (d * 2 ^ j) Hdj) as <-.
    apply rne_div_mono; try assumption.
    apply Z.mul_le_mono_nonneg_r; lia.
  - pose proof (rne_div_exact (2 ^ 53) (d * 2 ^ j) Hdj) as Ex.
    etransitivity; [|apply Z.eq_le_incl, Ex].
    apply rne_div_mono; try assumption.
    apply Z.mul_le_mono_nonneg_r; lia.
Qed.

Lemma round_mag_small_le n d : 0 < d -> n / d < 2 ^ 53 -> F64.round_mag n d <= 2 ^ 53.
Proof.
  intros Hd Hq. unfold F64.round_mag. destruct (Z.ltb_spec (n / d) (2 ^ 53)); [|lia].
  pose proof (rne_div_bounds n d Hd). lia.
Qed.

Lemma round_mag_mono n1 d1 n2 d2 :
  0 < d1 -> 0 < d2 -> n1 * d2 <= n2 * d1 -> F64.round_mag n1 d1 <= F64.round_mag n2 d2.
Proof.
  intros H1 H2 H.
  pose proof (div_frac_le _ _ _ _ H1 H2 H) as Hq.
  unfold F64.round_mag.
  destruct (Z.ltb_spec (n1 / d1) (2 ^ 53)) as [S1|B1];
    destruct (Z.ltb_spec (n2 / d2) (2 ^ 53)) as [S2|B2]; try lia.
  - apply rne_div_mono; assumption.
  - pose proof (rne_div_bounds n1 d1 H1).
    destruct (round_mag_big_range n2 d2 H2 B2) as [Hj [Lo _]].
    set (j := Z.log2 (n2 / d2) - 52) in *.
    assert (2 ^ 1 <= 2 ^ j) by (apply Z.pow_le_mono_r; lia).
    change (2 ^ 1) with 2 in *. nia.
  - destruct (round_mag_big_range n1 d1 H1 B1) as [Hj1 [Lo1 Hi1]].
    destruct (round_mag_big_range n2 d2 H2 B2) as [Hj2 [Lo2 Hi2]].
    assert (Z.log2 (n1 / d1) <= Z.log2 (n2 / d2)) as HL by (apply Z.log2_le_mono; lia).
    set (j1 := Z.log2 (n1 / d1) - 52) in *.
    set (j2 := Z.log2 (n2 / d2) - 52) in *.
    assert (0 < 2 ^ j1) by (apply Z.pow_pos_nonneg; lia).
    assert (0 < 2 ^ j2) by (apply Z.pow_pos_nonneg; lia).
    destruct (Z.eq_dec j1 j2) as [E|NE].
    + rewrite <- E. apply Z.mul_le_mono_nonneg_r; [lia|].
      apply rne_div_mono; try nia.
    + assert (j1 + 1 <= j2) by lia.
      assert (2 ^ (j1 + 1) <= 2 ^ j2) by (apply Z.pow_le_mono_r; lia).
      rewrite Z.pow_add_r in * by lia. change (2 ^ 1) with 2 in *.
      nia.
Qed.

Lemma round_mag_nonneg n d : 0 <= n -> 0 < d -> 0 <= F64.round_mag n d.
Proof.
  intros Hn Hd. 
  assert (F64.round_mag 0 d = 0) as Z0.
  { unfold F64.round_mag. rewrite Z.div_0_l by lia. cbn. apply (rne_div_exact 0 d Hd). }
  rewrite <- Z0. apply round_mag_mono; nia.
Qed.

Lemma log2_of_range V k : 0 <= k -> 2 ^ k <= V < 2 ^ (k + 1) -> Z.log2 V = k.
Proof.
  intros Hk H. apply Z.log2_unique; [assumption|]. rewrite <- Z.add_1_r. assumption.
Qed.

Lemma representable_scaled r j :
  0 <= j -> 2 ^ 52 <= r <= 2 ^ 53 -> F64.representable (r * 2 ^ j).
Proof.
  intros Hj [Lo Hi].
  assert (0 < 2 ^ j) as Hp by (apply Z.pow_pos_nonneg; lia).
  split; [nia|].
  destruct (Z.eq_dec r (2 ^ 53)) as [->|NE].
  - rewrite <- Z.pow_add_r by lia.
    rewrite Z.log2_pow2 by lia.
    replace (Z.max 0 (53 + j - 52)) with (j + 1) by lia.
    replace (53 + j) with (52 + (j + 1)) by lia.
    rewrite Z.pow_add_r by lia. apply Z.mod_mul. 
    assert (0 < 2 ^ (j + 1)) by (apply Z.pow_pos_nonneg; lia). lia.
  - assert (Z.log2 (r * 2 ^ j) = 52 + j) as ->.
    { apply log2_of_range; [lia|].
      rewrite !Z.pow_add_r by lia. change (2 ^ 1) with 2. nia. }
    replace (Z.max 0 (52 + j - 52)) with j by lia.
    apply Z.mod_mul. lia.
Qed.

Lemma representable_small V : 0 <= V <= 2 ^ 53 -> F64.representable V.
Proof.
  intros [Lo Hi]. split; [assumption|].
  destruct (Z.eq_dec V (2 ^ 53)) as [->|NE]; [reflexivity|].
  assert (Z.log2 V <= 52) as HL.
  { destruct (Z.eq_dec V 0) as [->|]; [cbn; lia|].
    assert (Z.log2 V < 53); [|lia]. apply Z.log2_lt_pow2; lia. }
  replace (Z.max 0 (Z.log2 V - 52)) with 0 by lia.
  apply Z.mod_1_r.
Qed.

Lemma round_mag_representable n d : 0 <= n -> 0 < d -> F64.representable (F64.round_mag n d).
Proof.
  intros Hn Hd. unfold F64.round_mag.
  destruct (Z.ltb_spec (n / d) (2 ^ 53)) as [S|B].
  - apply representable_small. pose proof (rne_div_bounds n d Hd).
    assert (0 <= n / d) by (apply Z.div_pos; lia). lia.
  - destruct (round_mag_big_range n d Hd B) as [Hj R].
    apply representable_scaled; [lia|assumption].
Qed.

Lemma round_mag_exact a k d :
  0 <= a < 2 ^ 53 -> 0 <= k -> 0 < d -> F64.round_mag (a * 2 ^ k * d) d = a * 2 ^ k.
Proof.
  intros [La Ha] Hk Hd. unfold F64.round_mag.
  rewrite Z.div_mul by lia.
  assert (0 < 2 ^ k) as Hpk by (apply Z.pow_pos_nonneg; lia).
  destruct (Z.ltb_spec (a * 2 ^ k) (2 ^ 53)) as [S|B].
  - apply rne_div_exact; assumption.
  - assert (0 < a) as Hapos by nia.
    rewrite Z.log2_mul_pow2 by lia.
    assert (Z.log2 a <= 52) as HL.
    { assert (Z.log2 a < 53); [|lia]. apply Z.log2_lt_pow2; lia. }
    assert (53 <= k + Z.log2 a) as HL2.
    { rewrite <- Z.log2_mul_pow2 by lia.
      change 53 with (Z.log2 (2 ^ 53)). apply Z.log2_le_mono. lia. }
    set (j := k + Z.log2 a - 52).
    assert (0 <= j <= k) as Hj by (unfold j; lia).
    assert (0 < 2 ^ j) as Hpj by (apply Z.pow_pos_nonneg; lia).
    assert (2 ^ k = 2 ^ (k - j) * 2 ^ j) as Ek.
    { rewrite <- Z.pow_add_r by lia. f_equal. lia. }
    rewrite Ek.
    replace (a * (2 ^ (k - j) * 2 ^ j) * d) with (a * 2 ^ (k - j) * (d * 2 ^ j)) by ring.
    rewrite rne_div_exact by nia. ring.
Qed.

End Rounding.

(** ** Facts about [float64] values that are zero or positive *)

Section NonNegative.

Lemma fnum_pos m e : 0 < F64.fnum m e.
Proof.
  unfold F64.fnum. apply Z.mul_pos_pos; [lia|]. apply Z.pow_pos_nonneg; lia.
Qed.

Lemma fden_pos e : 0 < F64.fden e.
Proof. unfold F64.fden. apply Z.pow_pos_nonneg; lia. Qed.

Lemma round_mag_zero d : 0 < d -> F64.round_mag 0 d = 0.
Proof.
  intros Hd. unfold F64.round_mag. rewrite Z.div_0_l by lia. cbn.
  apply (rne_div_exact 0 d Hd).
Qed.

Lemma nonneg_finite_sign x :
  F64.nonneg_finite x = true ->
  0 <= F64.signed_num x /\ 0 < F64.pos_den x.
Proof.
  destruct x as [s|s| |s m e]; cbn; try discriminate; try lia.
  destruct s; [discriminate|]. intros _.
  pose proof (fnum_pos m e). pose proof (fden_pos e). lia.
Qed.

Lemma of_mag_nonneg V :
  F64.representable V -> V < 2 ^ 2098 ->
  F64.nonneg_finite (F64.of_mag false V) = true
  /\ F64.signed_num (F64.of_mag false V) = V
  /\ F64.pos_den (F64.of_mag false V) = 1.
Proof.
  intros [H0 Hm] Hlt. unfold F64.of_mag.
  destruct (Z.leb_spec V 0) as [Z0|P]; [cbn; repeat split; lia|].
  destruct (Z.leb_spec (2 ^ 2098) V) as [|_]; [lia|].
  set (j := Z.max 0 (Z.log2 V - 52)) in *.
  assert (0 <= j) as Hj by (unfold j; lia).
  assert (0 < 2 ^ j) as Hp by (apply Z.pow_pos_nonneg; lia).
  pose proof (Z.div_mod V (2 ^ j) ltac:(lia)) as E. rewrite Hm in E.
  assert (0 < V / 2 ^ j) as Hq by nia.
  cbn [F64.nonneg_finite F64.signed_num F64.pos_den negb].
  unfold F64.fnum, F64.fden.
  replace (Z.max 0 (j - 1074 + 1074)) with j by lia.
  replace (Z.max 0 (- (j - 1074 + 1074))) with 0 by lia.
  rewrite Z2Pos.id by assumption.
  split; [reflexivity|]. split; [lia|reflexivity].
Qed.

Lemma round_nonneg n d :
  0 <= n -> 0 < d -> F64.round_mag n d < 2 ^ 2098 ->
  F64.nonneg_finite (F64.round false n d) = true
  /\ F64.signed_num (F64.round false n d) = F64.round_mag n d
  /\ F64.pos_den (F64.round false n d) = 1.
Proof.
  intros Hn Hd Hlt. unfold F64.round.
  apply of_mag_nonneg; [apply round_mag_representable|]; assumption.
Qed.

Lemma mul_nonneg x y :
  F64.nonneg_finite x = true -> F64.nonneg_finite y = true ->
  F64.round_mag (F64.signed_num x * F64.signed_num y)
    (F64.pos_den x * F64.pos_den y * 2 ^ 1074) < 2 ^ 2098 ->
  F64.nonneg_finite (F64.mul x y) = true
  /\ F64.signed_num (F64.mul x y)
     = F64.round_mag (F64.signed_num x * F64.signed_num y)
         (F64.pos_den x * F64.pos_den y * 2 ^ 1074)
  /\ F64.pos_den (F64.mul x y) = 1.
Proof.
  intros Hx Hy.
  pose proof (nonneg_finite_sign x Hx) as [Nx Dx].
  pose proof (nonneg_finite_sign y Hy) as [Ny Dy].
  assert (0 < F64.pos_den x * F64.pos_den y * 2 ^ 1074) as Dpos
    by (apply Z.mul_pos_pos; [apply Z.mul_pos_pos|]; lia).
  destruct x as [sx|sx| |sx mx ex]; try discriminate;
    destruct y as [sy|sy| |sy my ey]; try discriminate;
    try (intros _; cbn [F64.mul F64.nonneg_finite F64.signed_num F64.pos_den];
         rewrite ?Z.mul_0_l, ?Z.mul_0_r, round_mag_zero by assumption;
         repeat split; reflexivity).
  destruct sx; [discriminate|]. destruct sy; [discriminate|].
  intros Hlt. cbn [F64.mul xorb].
  cbn [F64.signed_num F64.pos_den] in *.
  rewrite !Z.mul_1_l in *.
  apply round_nonneg; [nia | lia | assumption].
Qed.

Lemma div_nonneg x sy my ey :
  F64.nonneg_finite x = true ->
  let y := S754_finite false my ey in
  F64.round_mag (F64.signed_num x * F64.pos_den y * 2 ^ 1074)
    (F64.pos_den x * F64.signed_num y) < 2 ^ 2098 ->
  sy = false ->
  F64.nonneg_finite (F64.div x (S754_finite sy my ey)) = true
  /\ F64.signed_num (F64.div x (S754_finite sy my ey))
     = F64.round_mag (F64.signed_num x * F64.pos_den y * 2 ^ 1074)
         (F64.pos_den x * F64.signed_num y)
  /\ F64.pos_den (F64.div x (S754_finite sy my ey)) = 1.
Proof.
  intros Hx y Hlt ->.
  pose proof (nonneg_finite_sign x Hx) as [Nx Dx].
  pose proof (fnum_pos my ey) as Ny. pose proof (fden_pos ey) as Dy.
  subst y. cbn [F64.signed_num F64.pos_den] in *. rewrite !Z.mul_1_l in *.
  assert (0 < F64.pos_den x * F64.fnum my ey) as Dpos by (apply Z.mul_pos_pos; lia).
  destruct x as [sx|sx| |sx mx ex]; try discriminate.
  - cbn [F64.div F64.nonneg_finite F64.signed_num F64.pos_den] in *.
    rewrite !Z.mul_0_l, round_mag_zero by assumption. repeat split; reflexivity.
  - destruct sx; [discriminate|]. cbn [F64.div xorb].
    cbn [F64.signed_num F64.pos_den] in *. rewrite !Z.mul_1_l in *.
    apply round_nonneg; [|lia|assumption].
    pose proof (fden_pos ex). 
    assert (0 < 2 ^ 1074) by (apply Z.pow_pos_nonneg; lia). nia.
Qed.

Lemma to_uint64_nonneg oor x :
  F64.nonneg_finite x = true ->
  F64.signed_num x / (F64.pos_den x * 2 ^ 1074) < 2 ^ 64 ->
  F64.to_uint64 oor x = F64.signed_num x / (F64.pos_den x * 2 ^ 1074).
Proof.
  destruct x as [s|s| |s m e]; try discriminate; cbn [F64.nonneg_finite].
  - intros _ _. reflexivity.
  - destruct s; [discriminate|]. intros _.
    cbn [F64.to_uint64 F64.signed_num F64.pos_den]. rewrite Z.mul_1_l.
    intros Hlt. destruct (Z.ltb_spec (F64.fnum m e / (F64.fden e * 2 ^ 1074)) (2 ^ 64)); [reflexivity|lia].
Qed.

Lemma of_uint64_nonneg u :
  0 <= u <= 2 ^ 64 ->
  F64.nonneg_finite (F64.of_uint64 u) = true
  /\ F64.signed_num (F64.of_uint64 u) = F64.round_mag (u * 2 ^ 1074) 1
  /\ F64.pos_den (F64.of_uint64 u) = 1.
Proof.
  intros [Lo Hi]. unfold F64.of_uint64.
  assert (0 < 2 ^ 1074) by (apply Z.pow_pos_nonneg; lia).
  apply round_nonneg; [nia|lia|].
  apply Z.le_lt_trans with (F64.round_mag (2 ^ 64 * 2 ^ 1074) 1).
  - apply round_mag_mono; nia.
  - vm_compute. reflexivity.
Qed.

Lemma of_uint64_exact u :
  0 <= u < 2 ^ 53 ->
  F64.signed_num (F64.of_uint64 u) = u * 2 ^ 1074.
Proof.
  intros [Lo Hi].
  destruct (of_uint64_nonneg u) as (_ & -> & _); [lia|].
  pose proof (round_mag_exact u 1074 1) as E.
  rewrite Z.mul_1_r in E. apply E; lia.
Qed.

Lemma leb_nonneg x y :
  F64.nonneg_finite x = true -> F64.nonneg_finite y = true ->
  F64.leb x y = true
  <-> F64.signed_num x * F64.pos_den y <= F64.signed_num y * F64.pos_den x.
Proof.
  intros Hx Hy. unfold F64.leb.
  assert (F64.compare x y
          = Some (F64.signed_num x * F64.pos_den y
                  ?= F64.signed_num y * F64.pos_den x)) as ->.
  { destruct x as [sx|sx| |sx mx ex]; try discriminate;
      destruct y as [sy|sy| |sy my ey]; try discriminate; reflexivity. }
  rewrite Z.le_lteq, <- Z.compare_lt_iff, <- Z.compare_eq_iff.
  destruct (_ ?= _); intuition congruence.
Qed.

End NonNegative.

(** ** Percentages of a limit *)

Section Percent.

Variable oor : float64 -> Z.

Lemma f64_100_value : f64_100 = S754_finite false 7036874417766400 (-46).
Proof. vm_compute. reflexivity. Qed.

Lemma f64_one_value : f64_one = S754_finite false 4503599627370496 (-52).
Proof. vm_compute. reflexivity. Qed.

Lemma pow1074_pos : 0 < 2 ^ 1074.
Proof. apply Z.pow_pos_nonneg; lia. Qed.

(** A value between zero and a non-negative bound is zero or positive and
    finite. *)
Lemma between_nonneg x c :
  F64.nonneg_finite c = true ->
  F64.leb f64_zero x = true -> F64.leb x c = true ->
  F64.nonneg_finite x = true.
Proof.
  intros Hc H0 H1.
  destruct x as [s|s| |s mx ex]; try reflexivity; try discriminate.
  - destruct s; [discriminate|].
    destruct c as [sc|sc| |sc mc ec]; try discriminate.
  - destruct s; [|reflexivity]. exfalso.
    unfold F64.leb, F64.compare, f64_zero in H0.
    cbn [F64.signed_num F64.pos_den] in H0.
    pose proof (fnum_pos mx ex).
    destruct (Z.compare_spec (0 * F64.fden ex) (-1 * F64.fnum mx ex * 1));
      try discriminate; lia.
Qed.

(** The percentage before the final division by [2^1074], in exact terms. *)
Lemma percentOf_value L p :
  0 <= L <= 2 ^ 46 ->
  F64.nonneg_finite p = true -> F64.leb p f64_100 = true ->
  let V1 := F64.round_mag (L * 2 ^ 1074 * F64.signed_num p)
              (F64.pos_den p * 2 ^ 1074) in
  let V2 := F64.round_mag (V1 * 2 ^ 1074) (100 * 2 ^ 1074) in
  percentOf oor L p = V2 / 2 ^ 1074
  /\ 0 <= V1 <= L * 100 * 2 ^ 1074
  /\ 0 <= V2 <= L * 2 ^ 1074.
Proof.
  intros HL Hp Hle V1 V2.
  pose proof pow1074_pos as P.
  pose proof (nonneg_finite_sign p Hp) as [Np Dp].
  assert (F64.nonneg_finite f64_100 = true) as H100 by (rewrite f64_100_value; reflexivity).
  apply (leb_nonneg p f64_100 Hp H100) in Hle.
  assert (F64.signed_num f64_100 = 100 * 2 ^ 1074) as N100
    by (rewrite f64_100_value; vm_compute; reflexivity).
  assert (F64.pos_den f64_100 = 1) as D100
    by (rewrite f64_100_value; vm_compute; reflexivity).
  rewrite N100, D100, Z.mul_1_r in Hle.
  assert (0 < F64.pos_den p * 2 ^ 1074) as Dpos by (apply Z.mul_pos_pos; lia).
  assert (0 <= L * 2 ^ 1074) as L0 by nia.
  (* bounds on V1 *)
  assert (0 <= V1 <= L * 100 * 2 ^ 1074) as HV1.
  { split; [apply round_mag_nonneg; [nia|lia]|].
    pose proof (round_mag_exact (L * 100) 1074 1) as E.
    rewrite Z.mul_1_r in E.
    etransitivity; [|apply Z.eq_le_incl, E; lia].
    apply round_mag_mono; [lia|lia|].
    rewrite Z.mul_1_r.
    replace (L * 100 * 2 ^ 1074 * (F64.pos_den p * 2 ^ 1074))
      with (L * 2 ^ 1074 * (100 * 2 ^ 1074 * F64.pos_den p)) by ring.
    apply Z.mul_le_mono_nonneg_l; lia. }
  (* bounds on V2 *)
  assert (0 <= V2 <= L * 2 ^ 1074) as HV2.
  { split; [apply round_mag_nonneg; nia|].
    pose proof (round_mag_exact L 1074 1) as E.
    rewrite Z.mul_1_r in E.
    etransitivity; [|apply Z.eq_le_incl, E; lia].
    apply round_mag_mono; [lia|lia|]. nia. }
  split; [|split; assumption].
  (* the floating-point computation *)
  unfold percentOf, uint64_of_float64.
  destruct (of_uint64_nonneg L) as (HA & _ & DA); [lia|].
  pose proof (of_uint64_exact L ltac:(lia)) as NA.
  assert (2 ^ 1138 < 2 ^ 2098) as Big by (vm_compute; reflexivity).
  assert (L * 100 * 2 ^ 1074 < 2 ^ 2098) as Hb1.
  { replace (2 ^ 1138) with (2 ^ 64 * 2 ^ 1074) in Big by (vm_compute; reflexivity). nia. }
  destruct (mul_nonneg (F64.of_uint64 L) p HA Hp) as (HM & NM & DM).
  { rewrite NA, DA, Z.mul_1_l. fold V1. lia. }
  rewrite NA, DA, Z.mul_1_l in NM. fold V1 in NM.
  rewrite f64_100_value.
  destruct (div_nonneg (F64.mul (F64.of_uint64 L) p) false 7036874417766400 (-46) HM)
    as (HQ & NQ & DQ); [|reflexivity|].
  { rewrite <- f64_100_value, NM, DM, N100, D100, !Z.mul_1_r, Z.mul_1_l.
    fold V2. nia. }
  rewrite <- f64_100_value, NM, DM, N100, D100, !Z.mul_1_r, Z.mul_1_l in NQ.
  fold V2 in NQ. rewrite <- f64_100_value in *.
  rewrite to_uint64_nonneg; rewrite ?NQ, ?DQ, ?Z.mul_1_l; [reflexivity|assumption|].
  apply Z.div_lt_upper_bound; [lia|]. nia.
Qed.

Lemma percentOf_bounds L p :
  0 <= L <= 2 ^ 46 ->
  F64.nonneg_finite p = true -> F64.leb p f64_100 = true ->
  0 <= percentOf oor L p <= L.
Proof.
  intros HL Hp Hle.
  destruct (percentOf_value L p HL Hp Hle) as (-> & _ & HV2).
  pose proof pow1074_pos. split.
  - apply Z.div_pos; lia.
  - apply Z.div_le_upper_bound; lia.
Qed.

Lemma percentOf_mono L p q :
  0 <= L <= 2 ^ 46 ->
  F64.nonneg_finite p = true -> F64.nonneg_finite q = true ->
  F64.leb p q = true -> F64.leb q f64_100 = true ->
  percentOf oor L p <= percentOf oor L q.
Proof.
  intros HL Hp Hq Hpq Hq100.
  assert (F64.nonneg_finite f64_100 = true) as H100 by (rewrite f64_100_value; reflexivity).
  pose proof (nonneg_finite_sign p Hp) as [Np Dp].
  pose proof (nonneg_finite_sign q Hq) as [Nq Dq].
  pose proof pow1074_pos as P.
  assert (F64.leb p f64_100 = true) as Hp100.
  { apply leb_nonneg; [assumption..|].
    apply (leb_nonneg p q Hp Hq) in Hpq.
    apply (leb_nonneg q f64_100 Hq H100) in Hq100.
    pose proof (nonneg_finite_sign _ H100) as [N1 D1].
    apply Z.mul_le_mono_pos_r with (F64.pos_den q); [assumption|].
    nia. }
  destruct (percentOf_value L p HL Hp Hp100) as (-> & HV1p & _).
  destruct (percentOf_value L q HL Hq Hq100) as (-> & HV1q & _).
  apply (leb_nonneg p q Hp Hq) in Hpq.
  apply Z.div_le_mono; [lia|].
  apply round_mag_mono; [lia|lia|].
  apply Z.mul_le_mono_nonneg_r; [lia|].
  apply Z.mul_le_mono_nonneg_r; [lia|].
  apply round_mag_mono; [nia|nia|].
  assert (0 <= L * 2 ^ 1074) by nia.
  replace (L * 2 ^ 1074 * F64.signed_num p * (F64.pos_den q * 2 ^ 1074))
    with (L * 2 ^ 1074 * 2 ^ 1074 * (F64.signed_num p * F64.pos_den q)) by ring.
  replace (L * 2 ^ 1074 * F64.signed_num q * (F64.pos_den p * 2 ^ 1074))
    with (L * 2 ^ 1074 * 2 ^ 1074 * (F64.signed_num q * F64.pos_den p)) by ring.
  apply Z.mul_le_mono_nonneg_l; [nia|assumption].
Qed.

End Percent.

(** ** The reduced limit *)

Section Reduced.

Variable oor : float64 -> Z.

(** [1 - b] lies between 0 and 1 when [b] does. *)
Lemma sub_one_nonneg b :
  F64.nonneg_finite b = true -> F64.leb b f64_one = true ->
  F64.nonneg_finite (F64.sub f64_one b) = true
  /\ F64.signed_num (F64.sub f64_one b)
     <= 2 ^ 1074 * F64.pos_den (F64.sub f64_one b).
Proof.
  intros Hb Hle.
  assert (F64.nonneg_finite f64_one = true) as H1 by (rewrite f64_one_value; reflexivity).
  apply (leb_nonneg b f64_one Hb H1) in Hle.
  assert (F64.signed_num f64_one = 2 ^ 1074) as N1
    by (rewrite f64_one_value; vm_compute; reflexivity).
  assert (F64.pos_den f64_one = 1) as D1
    by (rewrite f64_one_value; vm_compute; reflexivity).
  rewrite N1, D1, Z.mul_1_r in Hle.
  pose proof pow1074_pos as P.
  destruct b as [s|s| |s mb eb]; try discriminate Hb.
  - rewrite f64_one_value. cbn [F64.sub].
    rewrite <- f64_one_value, N1, D1. split; [assumption|lia].
  - destruct s; [discriminate Hb|].
    cbn [F64.signed_num F64.pos_den] in Hle. rewrite Z.mul_1_l in Hle.
    pose proof (fnum_pos mb eb) as Nb. pose proof (fden_pos eb) as Db.
    rewrite f64_one_value. cbn [F64.sub].
    change (F64.fnum 4503599627370496 (-52)) with (2 ^ 1074).
    change (F64.fden (-52)) with 1.
    rewrite !Z.mul_1_l, Z.mul_1_r.
    destruct (Z.ltb_spec (2 ^ 1074 * F64.fden eb - F64.fnum mb eb) 0) as [|_]; [lia|].
    rewrite Z.abs_eq by lia.
    assert (F64.round_mag (2 ^ 1074 * F64.fden eb - F64.fnum mb eb) (F64.fden eb)
            <= 2 ^ 1074) as Hr.
    { pose proof (round_mag_exact 1 1074 (F64.fden eb)) as E.
      rewrite Z.mul_1_l in E.
      etransitivity; [|apply Z.eq_le_incl, E; lia].
      apply round_mag_mono; [lia|lia|]. nia. }
    destruct (round_nonneg (2 ^ 1074 * F64.fden eb - F64.fnum mb eb) (F64.fden eb))
      as (Hn & Hs & Hd); [lia|lia| |].
    { eapply Z.le_lt_trans; [exact Hr|]. vm_compute. reflexivity. }
    split; [assumption|]. rewrite Hs, Hd. lia.
Qed.

(** Scaling a small unsigned integer by a factor between 0 and 1 and
    truncating does not increase it. *)
Lemma scale_le B x :
  0 <= B < 2 ^ 53 ->
  F64.nonneg_finite x = true ->
  F64.signed_num x <= 2 ^ 1074 * F64.pos_den x ->
  0 <= uint64_of_float64 oor (F64.mul (F64.of_uint64 B) x) <= B.
Proof.
  intros HB Hx Hle.
  pose proof pow1074_pos as P.
  pose proof (nonneg_finite_sign x Hx) as [Nx Dx].
  destruct (of_uint64_nonneg B) as (HA & _ & DA); [lia|].
  pose proof (of_uint64_exact B HB) as NA.
  set (V := F64.round_mag (B * 2 ^ 1074 * F64.signed_num x)
              (F64.pos_den x * 2 ^ 1074)).
  assert (0 <= V <= B * 2 ^ 1074) as HV.
  { split; [apply round_mag_nonneg; nia|].
    pose proof (round_mag_exact B 1074 1) as E. rewrite Z.mul_1_r in E.
    etransitivity; [|apply Z.eq_le_incl, E; lia].
    apply round_mag_mono; [nia|lia|].
    rewrite Z.mul_1_r.
    replace (B * 2 ^ 1074 * (F64.pos_den x * 2 ^ 1074))
      with (B * 2 ^ 1074 * (2 ^ 1074 * F64.pos_den x)) by ring.
    apply Z.mul_le_mono_nonneg_l; [nia|assumption]. }
  assert (2 ^ 53 * 2 ^ 1074 < 2 ^ 2098) as Big by (vm_compute; reflexivity).
  destruct (mul_nonneg (F64.of_uint64 B) x HA Hx) as (HM & NM & DM).
  { rewrite NA, DA, Z.mul_1_l. fold V. nia. }
  rewrite NA, DA, Z.mul_1_l in NM. fold V in NM.
  unfold uint64_of_float64.
  rewrite to_uint64_nonneg; rewrite ?NM, ?DM, ?Z.mul_1_l; [|assumption|].
  - split; [apply Z.div_pos; lia|apply Z.div_le_upper_bound; lia].
  - apply Z.div_lt_upper_bound; [lia|].
    assert (2 ^ 53 < 2 ^ 64) by (vm_compute; reflexivity). nia.
Qed.

(** Within the documented ranges of the policy the reduced limit does not
    exceed the raw limit. *)
Lemma reducedLimit_le config L :
  0 <= L <= 2 ^ 46 ->
  F64.leb f64_zero (MaxRSSPercent (Memory config)) = true ->
  F64.leb (MaxRSSPercent (Memory config)) f64_100 = true ->
  F64.leb f64_zero (HeapFragmentationBuffer (Memory config)) = true ->
  F64.leb (HeapFragmentationBuffer (Memory config)) f64_one = true ->
  0 <= reducedLimit oor config L <= L.
Proof.
  intros HL Hp0 Hp1 Hb0 Hb1.
  assert (F64.nonneg_finite f64_100 = true) as H100 by (rewrite f64_100_value; reflexivity).
  assert (F64.nonneg_finite f64_one = true) as H1 by (rewrite f64_one_value; reflexivity).
  pose proof (between_nonneg _ _ H100 Hp0 Hp1) as Hp.
  pose proof (between_nonneg _ _ H1 Hb0 Hb1) as Hb.
  pose proof (percentOf_bounds oor L _ HL Hp Hp1) as Hbase.
  destruct (sub_one_nonneg _ Hb Hb1) as [Hx Hxle].
  unfold reducedLimit.
  assert (2 ^ 46 < 2 ^ 53) by (vm_compute; reflexivity).
  pose proof (scale_le (percentOf oor L (MaxRSSPercent (Memory config))) _
                ltac:(lia) Hx Hxle).
  lia.
Qed.

End Reduced.

(** ** Ordered percentages *)

Section Ordered.

Lemma pos_den_pos x : 0 < F64.pos_den x.
Proof. destruct x; cbn; try lia. apply fden_pos. Qed.

Lemma leb_finite x y :
  F64.is_finite x = true -> F64.is_finite y = true ->
  F64.leb x y = true
  <-> F64.signed_num x * F64.pos_den y <= F64.signed_num y * F64.pos_den x.
Proof.
  intros Hx Hy. unfold F64.leb.
  assert (F64.compare x y
          = Some (F64.signed_num x * F64.pos_den y
                  ?= F64.signed_num y * F64.pos_den x)) as ->.
  { destruct x as [sx|sx| |sx mx ex]; try discriminate Hx;
      destruct y as [sy|sy| |sy my ey]; try discriminate Hy; reflexivity. }
  rewrite Z.le_lteq, <- Z.compare_lt_iff, <- Z.compare_eq_iff.
  destruct (_ ?= _); intuition congruence.
Qed.

Lemma between_finite lo x hi :
  F64.is_finite lo = true -> F64.is_finite hi = true ->
  F64.leb lo x = true -> F64.leb x hi = true ->
  F64.is_finite x = true.
Proof.
  intros Hlo Hhi H0 H1.
  destruct x as [s|s| |s mx ex]; try reflexivity.
  - destruct s.
    + destruct lo; try discriminate Hlo; discriminate H0.
    + destruct hi; try discriminate Hhi; discriminate H1.
  - destruct lo; try discriminate Hlo; discriminate H0.
Qed.

Lemma finite_nonneg x :
  F64.is_finite x = true -> 0 <= F64.signed_num x ->
  F64.nonneg_finite x = true.
Proof.
  destruct x as [s|s| |s m e]; try discriminate; try reflexivity.
  intros _. destruct s; [|reflexivity].
  cbn [F64.signed_num]. pose proof (fnum_pos m e). lia.
Qed.

(** Percentages with [0 <= soft <= hard <= 100] are zero or positive and
    finite. *)
Lemma ordered_percent_nonneg s h :
  F64.leb f64_zero s = true -> F64.leb s h = true ->
  F64.leb h f64_100 = true ->
  F64.nonneg_finite s = true /\ F64.nonneg_finite h = true.
Proof.
  intros H0 H1 H2.
  assert (F64.is_finite f64_zero = true) as F0 by reflexivity.
  assert (F64.is_finite f64_100 = true) as F100
    by (rewrite f64_100_value; reflexivity).
  assert (F64.is_finite h = true) as Fh.
  { destruct h as [sh|sh| |sh mh eh]; try reflexivity.
    - destruct sh.
      + destruct s as [ss|ss| |ss ms es]; try discriminate H1.
        destruct ss; [discriminate H0|discriminate H1].
      + rewrite f64_100_value in H2. discriminate H2.
    - destruct s; discriminate H1. }
  pose proof (between_finite _ _ _ F0 Fh H0 H1) as Fs.
  apply (leb_finite _ _ F0 Fs) in H0.
  apply (leb_finite _ _ Fs Fh) in H1.
  change (F64.signed_num f64_zero) with 0 in H0.
  change (F64.pos_den f64_zero) with 1 in H0.
  pose proof (pos_den_pos s). pose proof (pos_den_pos h).
  assert (0 <= F64.signed_num s) as Ns by lia.
  assert (0 <= F64.signed_num h) as Nh by nia.
  split; apply finite_nonneg; assumption.
Qed.

End Ordered.

(** ** The error of a rounding

    How far the computed percentage and the computed reduction can be
    from the exact ones. *)

Section RoundingError.

(** A quotient rounded to the nearest integer is within one half of it. *)
Lemma rne_div_half n d :
  0 < d -> 2 * n - d <= 2 * d * F64.rne_div n d <= 2 * n + d.
Proof.
  intros Hd. destruct (div_mod_eqs n d Hd) as [E R].
  unfold F64.rne_div.
  destruct (Z.ltb_spec (2 * (n mod d)) d); [nia|].
  destruct (Z.ltb_spec d (2 * (n mod d))); [nia|].
  destruct (Z.even (n / d)); nia.
Qed.

(** From [2^53] units on, rounding changes a value by at most one part in
    [2^53]. *)
Lemma round_mag_relative n d :
  0 < d -> 2 ^ 53 * d <= n ->
  n * (2 ^ 53 - 1) <= 2 ^ 53 * d * F64.round_mag n d <= n * (2 ^ 53 + 1).
Proof.
  intros Hd Hn.
  assert (2 ^ 53 <= n / d) as Hq by (apply Z.div_le_lower_bound; lia).
  unfold F64.round_mag. destruct (Z.ltb_spec (n / d) (2 ^ 53)) as [|_]; [lia|].
  destruct (round_mag_big_range n d Hd Hq) as [Hj _]. cbv zeta in Hj.
  set (j := Z.log2 (n / d) - 52) in *.
  assert (0 < 2 ^ j) as Hpj by (apply Z.pow_pos_nonneg; lia).
  assert (0 < d * 2 ^ j) as HD by (apply Z.mul_pos_pos; lia).
  pose proof (rne_div_half n (d * 2 ^ j) HD) as Hh.
  set (r := F64.rne_div n (d * 2 ^ j)) in *.
  assert (0 < n / d) as Hq0 by lia.
  pose proof (log2_bounds _ Hq0) as [Lo _].
  assert (2 ^ Z.log2 (n / d) = 2 ^ 52 * 2 ^ j) as Epow.
  { rewrite <- Z.pow_add_r by lia. f_equal. unfold j. lia. }
  destruct (div_mod_eqs n d Hd) as [E R].
  assert (2 ^ 52 * (d * 2 ^ j) <= n) as HDn.
  { assert (d * (2 ^ 52 * 2 ^ j) <= d * (n / d))
      by (apply Z.mul_le_mono_nonneg_l; lia). lia. }
  change (2 ^ 53) with (2 * 2 ^ 52) in *.
  set (H52 := 2 ^ 52) in *. set (P := 2 ^ j) in *.
  assert (0 < H52) by (subst H52; lia).
  replace (2 * H52 * d * (r * P)) with (H52 * (2 * (d * P) * r)) by ring.
  split.
  - assert (H52 * (2 * n - d * P) <= H52 * (2 * (d * P) * r))
      by (apply Z.mul_le_mono_nonneg_l; lia). lia.
  - assert (H52 * (2 * (d * P) * r) <= H52 * (2 * n + d * P))
      by (apply Z.mul_le_mono_nonneg_l; lia). lia.
Qed.

Lemma binary64_value x :
  binary64 x = true ->
  F64.pos_den x = 1
  /\ - (2 ^ 2098 - 2 ^ 2045) <= F64.signed_num x <= 2 ^ 2098 - 2 ^ 2045.
Proof.
  destruct x as [s|s| |s m e]; cbn [binary64 F64.pos_den F64.signed_num];
    try (intros _; split; [reflexivity|]; vm_compute; split; discriminate).
  intros H. apply andb_true_iff in H as [H He2].
  apply andb_true_iff in H as [Hm He1].
  apply Z.ltb_lt in Hm. apply Z.leb_le in He1. apply Z.leb_le in He2.
  unfold F64.fden, F64.fnum.
  replace (Z.max 0 (- (e + 1074))) with 0 by lia.
  replace (Z.max 0 (e + 1074)) with (e + 1074) by lia.
  split; [reflexivity|].
  assert (0 < 2 ^ (e + 1074)) as Hp by (apply Z.pow_pos_nonneg; lia).
  assert (2 ^ (e + 1074) <= 2 ^ 2045) as Hle
    by (apply Z.pow_le_mono_r; lia).
  assert (2 ^ 2098 - 2 ^ 2045 = (2 ^ 53 - 1) * 2 ^ 2045) as -> by (vm_compute; reflexivity).
  assert (Z.pos m * 2 ^ (e + 1074) <= (2 ^ 53 - 1) * 2 ^ 2045).
  { apply Z.mul_le_mono_nonneg; lia. }
  destruct s; lia.
Qed.

(** A product too large for the format is infinite. *)
Lemma mul_overflow x y :
  F64.nonneg_finite x = true -> F64.nonneg_finite y = true ->
  2 ^ 2098 <= F64.round_mag (F64.signed_num x * F64.signed_num y)
                (F64.pos_den x * F64.pos_den y * 2 ^ 1074) ->
  F64.mul x y = S754_infinity false.
Proof.
  intros Hx Hy.
  assert (forall d, 0 < d -> F64.round_mag 0 d < 2 ^ 2098) as Z0.
  { intros d Hd. rewrite round_mag_zero by assumption. reflexivity. }
  pose proof pow1074_pos as P.
  pose proof (nonneg_finite_sign x Hx) as [_ Dx].
  pose proof (nonneg_finite_sign y Hy) as [_ Dy].
  assert (0 < F64.pos_den x * F64.pos_den y * 2 ^ 1074) as Dpos
    by (apply Z.mul_pos_pos; [apply Z.mul_pos_pos|]; lia).
  destruct x as [sx|sx| |sx mx ex]; try discriminate;
    destruct y as [sy|sy| |sy my ey]; try discriminate;
    cbn [F64.signed_num]; rewrite ?Z.mul_0_l, ?Z.mul_0_r;
    try (intros H; specialize (Z0 _ Dpos); lia).
  destruct sx; [discriminate|]. destruct sy; [discriminate|].
  cbn [F64.signed_num F64.pos_den F64.mul xorb]. rewrite !Z.mul_1_l.
  intros H. unfold F64.round, F64.of_mag.
  destruct (Z.leb_spec (F64.round_mag (F64.fnum mx ex * F64.fnum my ey)
                          (F64.fden ex * F64.fden ey * 2 ^ 1074)) 0) as [L0|_].
  { assert (0 < 2 ^ 2098) by reflexivity. lia. }
  destruct (Z.leb_spec (2 ^ 2098)
              (F64.round_mag (F64.fnum mx ex * F64.fnum my ey)
                 (F64.fden ex * F64.fden ey * 2 ^ 1074))); [reflexivity|lia].
Qed.

Section Conversion.

Variable oor : float64 -> Z.

(** [uint64(f)] of a value that is zero or positive never exceeds [f], and
    is a [uint64] whatever the implementation does out of range. *)
Lemma uint64_of_float64_le x :
  F64.nonneg_finite x = true ->
  0 <= uint64_of_float64 oor x < 2 ^ 64
  /\ uint64_of_float64 oor x
     <= F64.signed_num x / (F64.pos_den x * 2 ^ 1074).
Proof.
  intros Hx. pose proof pow1074_pos as P.
  pose proof (nonneg_finite_sign x Hx) as [Nx Dx].
  assert (0 <= F64.signed_num x / (F64.pos_den x * 2 ^ 1074)) as Hq
    by (apply Z.div_pos; [lia|apply Z.mul_pos_pos; lia]).
  assert (0 <= wrap64 (oor x) < 2 ^ 64) as Hw
    by (unfold wrap64; apply Z.mod_pos_bound; reflexivity).
  unfold uint64_of_float64.
  destruct x as [s|s| |s m e]; try discriminate; cbn [F64.nonneg_finite] in Hx.
  - cbn [F64.to_uint64]. split; [split; [lia|reflexivity]|exact Hq].
  - destruct s; [discriminate|].
    cbn [F64.to_uint64 F64.signed_num F64.pos_den] in *.
    rewrite Z.mul_1_l in *.
    destruct (Z.ltb_spec (F64.fnum m e / (F64.fden e * 2 ^ 1074)) (2 ^ 64));
      lia.
Qed.

(** [uint64] of an infinite value is what the implementation makes of it. *)
Lemma uint64_of_infinity :
  0 <= uint64_of_float64 oor (S754_infinity false) < 2 ^ 64.
Proof.
  unfold uint64_of_float64. cbn [F64.to_uint64].
  unfold wrap64. apply Z.mod_pos_bound. reflexivity.
Qed.

(** The percentage of a limit does not exceed the exact percentage by more
    than three roundings. *)
Lemma percentOf_upper L p :
  1 <= L < 2 ^ 64 ->
  F64.nonneg_finite p = true -> binary64 p = true ->
  0 <= percentOf oor L p < 2 ^ 64
  /\ percentOf oor L p * 2 ^ 1074 * 100 * (2 ^ 53) ^ 3
     <= L * F64.signed_num p * (2 ^ 53 + 1) ^ 3.
Proof.
  intros HL Hp Wp.
  pose proof pow1074_pos as P.
  destruct (binary64_value p Wp) as [Dp _].
  pose proof (nonneg_finite_sign p Hp) as [Np _].
  assert (F64.signed_num f64_100 = 100 * 2 ^ 1074) as N100
    by (rewrite f64_100_value; vm_compute; reflexivity).
  assert (F64.pos_den f64_100 = 1) as D100
    by (rewrite f64_100_value; vm_compute; reflexivity).
  assert (2 ^ 53 <= 2 ^ 1074) as HUF by (apply Z.pow_le_mono_r; lia).
  destruct (of_uint64_nonneg L) as (HA & NA & DA); [lia|].
  set (U := 2 ^ 1074) in *. set (F := 2 ^ 53) in *.
  assert (0 < F) as HF by (subst F; reflexivity).
  set (Pn := F64.signed_num p) in *.
  set (VL := F64.round_mag (L * U) 1) in *.
  assert (0 <= VL) as VL0 by (apply round_mag_nonneg; nia).
  assert (F * VL <= L * U * (F + 1)) as RL.
  { pose proof (round_mag_relative (L * U) 1 ltac:(lia)) as R.
    fold F in R. rewrite Z.mul_1_r in R. apply R. nia. }
  set (V1 := F64.round_mag (VL * Pn) (U)).
  assert (0 <= V1) as V10 by (apply round_mag_nonneg; nia).
  assert (V1 <= F \/ F * U * V1 <= VL * Pn * (F + 1)) as R1.
  { destruct (Z_lt_le_dec (VL * Pn) (F * U)) as [Sm|Bg].
    - left. apply round_mag_small_le; [lia|].
      apply Z.div_lt_upper_bound; lia.
    - right. apply (round_mag_relative (VL * Pn) U); lia. }
  assert (F64.round_mag (F64.signed_num (F64.of_uint64 L) * Pn)
            (F64.pos_den (F64.of_uint64 L) * F64.pos_den p * U) = V1) as EV1.
  { rewrite NA, DA, Dp, !Z.mul_1_l. reflexivity. }
  assert (2 ^ 64 * U * 100 * F <= 2 ^ 2098 * (F + 1)) as Big
    by (subst U F; vm_compute; discriminate).
  unfold percentOf.
  destruct (Z_lt_le_dec V1 (2 ^ 2098)) as [Fin|Ovf].
  - destruct (mul_nonneg (F64.of_uint64 L) p HA Hp) as (HM & NM & DM).
    { change (F64.round_mag (F64.signed_num (F64.of_uint64 L) * Pn)
                (F64.pos_den (F64.of_uint64 L) * F64.pos_den p * U)
              < 2 ^ 2098).
      rewrite EV1. exact Fin. }
    change (F64.signed_num (F64.mul (F64.of_uint64 L) p)
            = F64.round_mag (F64.signed_num (F64.of_uint64 L) * Pn)
                (F64.pos_den (F64.of_uint64 L) * F64.pos_den p * U)) in NM.
    rewrite EV1 in NM.
    set (V2 := F64.round_mag (V1 * U) (100 * U)).
    assert (0 <= V2) as V20 by (apply round_mag_nonneg; nia).
    assert (V2 <= 2 ^ 2092) as V2hi.
    { pose proof (round_mag_exact 1 2092 (100 * U) ltac:(lia) ltac:(lia)
                    ltac:(lia)) as E.
      rewrite Z.mul_1_l in E. rewrite <- E.
      apply round_mag_mono; [lia|lia|].
      assert (100 * 2 ^ 2092 = 2 ^ 2098 + 36 * 2 ^ 2092) as E2
        by (vm_compute; reflexivity).
      assert (0 < 2 ^ 2092) by reflexivity.
      assert (V1 <= 2 ^ 2092 * 100) by lia.
      replace (2 ^ 2092 * (100 * U) * (100 * U))
        with (2 ^ 2092 * 100 * (U * (100 * U))) by ring.
      replace (V1 * U * (100 * U)) with (V1 * (U * (100 * U))) by ring.
      apply Z.mul_le_mono_nonneg_r; nia. }
    rewrite f64_100_value.
    destruct (div_nonneg (F64.mul (F64.of_uint64 L) p) false
                7036874417766400 (-46) HM) as (HQ & NQ & DQ); [|reflexivity|].
    { rewrite <- f64_100_value, NM, DM, N100, D100, Z.mul_1_r, Z.mul_1_l.
      fold U V2. assert (2 ^ 2092 < 2 ^ 2098) by reflexivity. lia. }
    rewrite <- f64_100_value, NM, DM, N100, D100, Z.mul_1_r, Z.mul_1_l in NQ.
    fold U V2 in NQ. rewrite <- f64_100_value in *.
    destruct (uint64_of_float64_le _ HQ) as [Hb Hle].
    rewrite NQ, DQ, Z.mul_1_l in Hle. fold U in Hle.
    set (base := uint64_of_float64 oor
                   (F64.div (F64.mul (F64.of_uint64 L) p) f64_100)) in *.
    split; [exact Hb|].
    assert (base * U <= V2) as HbU.
    { pose proof (Z.mul_div_le V2 U P). nia. }
    assert (V2 <= F \/ F * (100 * U) * V2 <= V1 * U * (F + 1)) as R2.
    { destruct (Z_lt_le_dec (V1 * U) (F * (100 * U))) as [Sm|Bg].
      - left. apply round_mag_small_le; [lia|].
        apply Z.div_lt_upper_bound; lia.
      - right. apply (round_mag_relative (V1 * U) (100 * U)); lia. }
    assert (0 <= L * Pn * (F + 1) ^ 3) as RHS0.
    { apply Z.mul_nonneg_nonneg; [nia|]. apply Z.pow_nonneg. lia. }
    assert (V2 <= F -> base = 0) as Small.
    { intros Hs. assert (base * U < 1 * U) by lia.
      assert (base < 1) by (apply Z.mul_lt_mono_pos_r with U; lia). lia. }
    destruct R2 as [S2|R2]; [rewrite (Small S2); exact RHS0|].
    assert (F * 100 * V2 <= V1 * (F + 1)) as R2'.
    { apply Z.mul_le_mono_pos_r with U; [lia|]. lia. }
    destruct R1 as [S1|R1].
    { assert (V2 <= F) as S2 by nia. rewrite (Small S2). exact RHS0. }
    set (G := F + 1) in *.
    assert (base * U * 100 * F <= V1 * G) as s1 by nia.
    assert (base * U * 100 * F * (F * U) <= VL * Pn * G * G) as s2.
    { transitivity (V1 * G * (F * U));
        [apply Z.mul_le_mono_nonneg_r; [nia|exact s1]|].
      replace (V1 * G * (F * U)) with (F * U * V1 * G) by ring.
      apply Z.mul_le_mono_nonneg_r; [lia|exact R1]. }
    assert (base * U * 100 * F * (F * U) * F <= L * U * G * Pn * G * G) as s3.
    { transitivity (VL * Pn * G * G * F);
        [apply Z.mul_le_mono_nonneg_r; [lia|exact s2]|].
      replace (VL * Pn * G * G * F) with (F * VL * (Pn * G * G)) by ring.
      replace (L * U * G * Pn * G * G) with (L * U * G * (Pn * G * G)) by ring.
      apply Z.mul_le_mono_nonneg_r; [nia|exact RL]. }
    apply Z.mul_le_mono_pos_r with U; [lia|].
    replace (base * U * 100 * F ^ 3 * U)
      with (base * U * 100 * F * (F * U) * F) by ring.
    replace (L * Pn * G ^ 3 * U) with (L * U * G * Pn * G * G) by ring.
    exact s3.
  - rewrite (mul_overflow (F64.of_uint64 L) p HA Hp)
      by (change (2 ^ 2098
                  <= F64.round_mag (F64.signed_num (F64.of_uint64 L) * Pn)
                       (F64.pos_den (F64.of_uint64 L) * F64.pos_den p * U));
          rewrite EV1; exact Ovf).
    rewrite f64_100_value. cbn [F64.div xorb].
    pose proof uint64_of_infinity as Hb.
    set (base := uint64_of_float64 oor (S754_infinity false)) in *.
    split; [exact Hb|].
    assert (0 < 2 ^ 2098) as P98 by reflexivity.
    destruct R1 as [S1|R1]; [subst F; lia|].
    set (G := F + 1) in *.
    assert (F * F * V1 <= L * Pn * G * G) as s1.
    { apply Z.mul_le_mono_pos_r with U; [lia|].
      transitivity (VL * Pn * G * F).
      - replace (F * F * V1 * U) with (F * U * V1 * F) by ring.
        apply Z.mul_le_mono_nonneg_r; [lia|exact R1].
      - replace (VL * Pn * G * F) with (F * VL * (Pn * G)) by ring.
        replace (L * Pn * G * G * U) with (L * U * G * (Pn * G)) by ring.
        apply Z.mul_le_mono_nonneg_r; [nia|exact RL]. }
    assert (base * U * 100 * F <= 2 ^ 2098 * G) as s2.
    { transitivity (2 ^ 64 * U * 100 * F); [|exact Big].
      apply Z.mul_le_mono_nonneg_r; [lia|].
      apply Z.mul_le_mono_nonneg_r; [lia|].
      apply Z.mul_le_mono_nonneg_r; lia. }
    replace (base * U * 100 * F ^ 3) with (base * U * 100 * F * (F * F)) by ring.
    replace (L * Pn * G ^ 3) with (L * Pn * G * G * G) by ring.
    transitivity (2 ^ 2098 * G * (F * F));
      [apply Z.mul_le_mono_nonneg_r; [nia|exact s2]|].
    transitivity (F * F * V1 * G).
    + replace (2 ^ 2098 * G * (F * F)) with (F * F * 2 ^ 2098 * G) by ring.
      apply Z.mul_le_mono_nonneg_r; [lia|].
      apply Z.mul_le_mono_nonneg_l; [nia|exact Ovf].
    + apply Z.mul_le_mono_nonneg_r; [lia|exact s1].
Qed.

End Conversion.

(** [1 - b] for a finite [b] of at most 1: zero or positive, the rounded
    exact difference. *)
Lemma sub_one_value b :
  binary64 b = true -> F64.is_finite b = true ->
  F64.leb b f64_one = true ->
  0 <= 2 ^ 1074 - F64.signed_num b
  /\ F64.nonneg_finite (F64.sub f64_one b) = true
  /\ F64.pos_den (F64.sub f64_one b) = 1
  /\ F64.signed_num (F64.sub f64_one b)
     = F64.round_mag (2 ^ 1074 - F64.signed_num b) 1.
Proof.
  intros Wb Fb Hle.
  assert (F64.is_finite f64_one = true) as F1
    by (rewrite f64_one_value; reflexivity).
  apply (leb_finite b f64_one Fb F1) in Hle.
  assert (F64.signed_num f64_one = 2 ^ 1074) as N1
    by (rewrite f64_one_value; vm_compute; reflexivity).
  assert (F64.pos_den f64_one = 1) as D1
    by (rewrite f64_one_value; vm_compute; reflexivity).
  destruct (binary64_value b Wb) as [Db Rb].
  rewrite N1, D1, Db, !Z.mul_1_r in Hle.
  pose proof pow1074_pos as P.
  split; [lia|].
  assert (F64.round_mag (2 ^ 1074) 1 = 2 ^ 1074) as EU.
  { pose proof (round_mag_exact 1 1074 1 ltac:(lia) ltac:(lia) ltac:(lia)) as E.
    rewrite Z.mul_1_l, Z.mul_1_r in E. exact E. }
  destruct b as [s|s| |s mb eb]; try discriminate Fb.
  - rewrite f64_one_value. cbn [F64.sub]. rewrite <- f64_one_value.
    cbn [F64.signed_num]. rewrite Z.sub_0_r, EU, N1, D1.
    rewrite f64_one_value. repeat split; reflexivity.
  - set (Bn := F64.signed_num (S754_finite s mb eb)) in *.
    assert (F64.fden eb = 1) as Ed by exact Db.
    assert ((if s then -1 else 1) * F64.fnum mb eb = Bn) as En by reflexivity.
    rewrite f64_one_value. cbn [F64.sub].
    change (F64.fnum 4503599627370496 (-52)) with (2 ^ 1074).
    change (F64.fden (-52)) with 1.
    rewrite Ed, !Z.mul_1_l, !Z.mul_1_r, En.
    destruct (Z.ltb_spec (2 ^ 1074 - Bn) 0) as [|_]; [lia|].
    rewrite Z.abs_eq by lia.
    assert (F64.round_mag (2 ^ 1074 - Bn) 1 < 2 ^ 2098) as Hr.
    { destruct (Z_lt_le_dec (2 ^ 1074 - Bn) (2 ^ 53 * 1)) as [Sm|Bg].
      - apply Z.le_lt_trans with (2 ^ 53); [|reflexivity].
        apply round_mag_small_le; [lia|]. rewrite Z.div_1_r. lia.
      - pose proof (round_mag_relative _ 1 ltac:(lia) Bg) as [_ R].
        rewrite Z.mul_1_r in R.
        assert ((2 ^ 1074 + (2 ^ 2098 - 2 ^ 2045)) * (2 ^ 53 + 1)
                < 2 ^ 53 * 2 ^ 2098) as Num by (vm_compute; reflexivity).
        assert ((2 ^ 1074 - Bn) * (2 ^ 53 + 1)
                <= (2 ^ 1074 + (2 ^ 2098 - 2 ^ 2045)) * (2 ^ 53 + 1))
          by (apply Z.mul_le_mono_nonneg_r; lia).
        apply Z.mul_lt_mono_pos_l with (2 ^ 53); [reflexivity|]. lia. }
    destruct (round_nonneg (2 ^ 1074 - Bn) 1) as (Hn & Hs & Hd);
      [lia|lia|exact Hr|].
    repeat split; assumption.
Qed.

Section Reduction.

Variable oor : float64 -> Z.

(** When the exact product [L * p / 100 * (1 - b)] is below [2^26], the
    reduced limit the code computes is at most [2^26]. *)
Lemma reducedLimit_upper config L :
  let p := MaxRSSPercent (Memory config) in
  let b := HeapFragmentationBuffer (Memory config) in
  1 <= L < 2 ^ 64 ->
  F64.nonneg_finite p = true -> binary64 p = true ->
  F64.is_finite b = true -> binary64 b = true ->
  F64.leb b f64_one = true ->
  L * F64.signed_num p * (2 ^ 1074 - F64.signed_num b)
  < 2 ^ 26 * 100 * 2 ^ 1074 * 2 ^ 1074 ->
  0 <= reducedLimit oor config L <= 2 ^ 26.
Proof.
  intros p b HL Hp Wp Fb Wb Hb1 HX.
  pose proof pow1074_pos as P.
  destruct (percentOf_upper oor L p HL Hp Wp) as [Hbase Hstar].
  destruct (sub_one_value b Wb Fb Hb1) as (C0 & Hc & Dc & Nc).
  pose proof (nonneg_finite_sign p Hp) as [Np _].
  unfold reducedLimit. fold p b.
  set (base := percentOf oor L p) in *.
  set (c := F64.sub f64_one b) in *.
  destruct (of_uint64_nonneg base) as (HB & NB & DB); [lia|].
  assert (2 ^ 53 <= 2 ^ 1074) as HUF by (apply Z.pow_le_mono_r; lia).
  set (U := 2 ^ 1074) in *. set (F := 2 ^ 53) in *.
  assert (0 < F) as HF by (subst F; reflexivity).
  set (G := F + 1) in *.
  set (Pn := F64.signed_num p) in *.
  set (C := U - F64.signed_num b) in *.
  set (Vb := F64.round_mag (base * U) 1) in *.
  set (Vc := F64.round_mag C 1) in *.
  assert (0 <= Vb) as Vb0 by (apply round_mag_nonneg; nia).
  assert (0 <= Vc) as Vc0 by (apply round_mag_nonneg; lia).
  assert (F * Vb <= base * U * G) as RB.
  { destruct (Z.eq_dec base 0) as [E0|NE].
    - subst Vb. rewrite E0, Z.mul_0_l, round_mag_zero by lia. lia.
    - pose proof (round_mag_relative (base * U) 1 ltac:(lia)) as R.
      fold F in R. rewrite Z.mul_1_r in R. apply R. nia. }
  assert (Vc <= F \/ F * Vc <= C * G) as RC.
  { destruct (Z_lt_le_dec C (F * 1)) as [Sm|Bg].
    - left. apply round_mag_small_le; [lia|]. rewrite Z.div_1_r. lia.
    - right. pose proof (round_mag_relative C 1 ltac:(lia) Bg) as [_ R].
      rewrite Z.mul_1_r in R. exact R. }
  set (Vr := F64.round_mag (Vb * Vc) U).
  assert (0 <= Vr) as Vr0 by (apply round_mag_nonneg; nia).
  assert (Vr <= F \/ F * U * Vr <= Vb * Vc * G) as RR.
  { destruct (Z_lt_le_dec (Vb * Vc) (F * U)) as [Sm|Bg].
    - left. apply round_mag_small_le; [lia|].
      apply Z.div_lt_upper_bound; lia.
    - right. apply (round_mag_relative (Vb * Vc) U); lia. }
  assert (Vr < (2 ^ 26 + 1) * U) as Hr.
  { destruct RR as [Sr|RR]; [nia|].
    destruct RC as [Sc|RC].
    - (* the factor is tiny *)
      assert (2 ^ 64 * G * G < F * U) as Num
        by (subst U F G; vm_compute; reflexivity).
      assert (U * Vr <= Vb * G) as t1.
      { apply Z.mul_le_mono_pos_l with F; [lia|].
        transitivity (Vb * Vc * G); [lia|].
        replace (F * (Vb * G)) with (Vb * F * G) by ring.
        apply Z.mul_le_mono_nonneg_r; [lia|].
        apply Z.mul_le_mono_nonneg_l; lia. }
      assert (F * Vr <= base * G * G) as t2.
      { apply Z.mul_le_mono_pos_l with U; [lia|].
        transitivity (F * Vb * G).
        - replace (U * (F * Vr)) with (F * (U * Vr)) by ring.
          replace (F * Vb * G) with (F * (Vb * G)) by ring.
          apply Z.mul_le_mono_nonneg_l; lia.
        - replace (U * (base * G * G)) with (base * U * G * G) by ring.
          apply Z.mul_le_mono_nonneg_r; lia. }
      assert (base * G * G <= 2 ^ 64 * G * G) as t3.
      { apply Z.mul_le_mono_nonneg_r; [lia|].
        apply Z.mul_le_mono_nonneg_r; lia. }
      assert (F * Vr < F * U) by lia.
      assert (Vr < U) by (apply Z.mul_lt_mono_pos_l with F; lia).
      nia.
    - (* the general case *)
      assert (F * F * F * Vr <= base * C * (G * G * G)) as t1.
      { apply Z.mul_le_mono_pos_l with U; [lia|].
        transitivity (F * F * (Vb * Vc * G)).
        - replace (U * (F * F * F * Vr)) with (F * F * (F * U * Vr)) by ring.
          apply Z.mul_le_mono_nonneg_l; [nia|exact RR].
        - replace (F * F * (Vb * Vc * G)) with (F * Vb * (F * Vc) * G) by ring.
          replace (U * (base * C * (G * G * G)))
            with (base * U * G * (C * G) * G) by ring.
          apply Z.mul_le_mono_nonneg_r; [lia|].
          apply Z.mul_le_mono_nonneg; nia. }
      assert (0 <= base * U * 100 * F ^ 3) as b0.
      { apply Z.mul_nonneg_nonneg; [nia|]. apply Z.pow_nonneg. lia. }
      assert (0 < G * G * G) as G3 by nia.
      assert (F ^ 3 = F * F * F) as EF by ring.
      assert (G ^ 3 = G * G * G) as EG by ring.
      rewrite EF, EG in *.
      assert (F * F * F * Vr * (U * 100 * (F * F * F))
              <= L * Pn * C * ((G * G * G) * (G * G * G))) as t2.
      { transitivity (base * C * (G * G * G) * (U * 100 * (F * F * F))).
        - apply Z.mul_le_mono_nonneg_r; [nia|exact t1].
        - replace (base * C * (G * G * G) * (U * 100 * (F * F * F)))
            with (base * U * 100 * (F * F * F) * (C * (G * G * G))) by ring.
          replace (L * Pn * C * (G * G * G * (G * G * G)))
            with (L * Pn * (G * G * G) * (C * (G * G * G))) by ring.
          apply Z.mul_le_mono_nonneg_r; [nia|exact Hstar]. }
      assert (L * Pn * C * (G * G * G * (G * G * G))
              < 2 ^ 26 * 100 * U * U * (G * G * G * (G * G * G))) as t3.
      { apply Z.mul_lt_mono_pos_r; [nia|exact HX]. }
      assert ((2 ^ 26) * (G * G * G * (G * G * G))
              <= (2 ^ 26 + 1) * (F * F * F * (F * F * F))) as Num
        by (subst F G; vm_compute; discriminate).
      destruct (Z_lt_le_dec Vr ((2 ^ 26 + 1) * U)) as [|Ge]; [assumption|].
      exfalso.
      assert ((2 ^ 26 + 1) * U * (F * F * F * (U * 100 * (F * F * F)))
              <= Vr * (F * F * F * (U * 100 * (F * F * F)))) as t4.
      { apply Z.mul_le_mono_nonneg_r; [nia|exact Ge]. }
      assert (2 ^ 26 * (G * G * G * (G * G * G)) * (100 * U * U)
              <= (2 ^ 26 + 1) * (F * F * F * (F * F * F)) * (100 * U * U)) as t5.
      { apply Z.mul_le_mono_nonneg_r; [nia|exact Num]. }
      lia. }
  assert ((2 ^ 26 + 1) * U < 2 ^ 2098) as Hfin
    by (subst U; vm_compute; reflexivity).
  destruct (mul_nonneg (F64.of_uint64 base) c HB Hc) as (HM & NM & DM).
  { rewrite NB, DB, Dc, Nc, !Z.mul_1_l. fold U C Vb Vc Vr. lia. }
  rewrite NB, DB, Dc, Nc, !Z.mul_1_l in NM. fold U C Vb Vc Vr in NM.
  assert (Vr / U <= 2 ^ 26) as Hq.
  { assert (Vr / U < 2 ^ 26 + 1); [|lia].
    apply Z.div_lt_upper_bound; lia. }
  unfold uint64_of_float64.
  rewrite to_uint64_nonneg; rewrite ?NM, ?DM, ?Z.mul_1_l; fold U.
  - split; [apply Z.div_pos; lia|exact Hq].
  - exact HM.
  - assert (2 ^ 26 < 2 ^ 64) by reflexivity. lia.
Qed.

End Reduction.

End RoundingError.

(** ** The thresholds of the watchdog *)

Section Thresholds.

Variable oor : float64 -> Z.

(** The percentage of a limit below [2^53], in exact terms. *)
Lemma percentOf_wide L p :
  0 <= L < 2 ^ 53 ->
  F64.nonneg_finite p = true -> F64.leb p f64_100 = true ->
  let V1 := F64.round_mag (L * 2 ^ 1074 * F64.signed_num p)
              (F64.pos_den p * 2 ^ 1074) in
  let V2 := F64.round_mag (V1 * 2 ^ 1074) (100 * 2 ^ 1074) in
  percentOf oor L p = V2 / 2 ^ 1074
  /\ 0 <= V1 <= 2 ^ 60 * 2 ^ 1074
  /\ 0 <= V2 <= 2 ^ 54 * 2 ^ 1074.
Proof.
  intros HL Hp Hle V1 V2.
  pose proof pow1074_pos as P.
  pose proof (nonneg_finite_sign p Hp) as [Np Dp].
  assert (F64.nonneg_finite f64_100 = true) as H100
    by (rewrite f64_100_value; reflexivity).
  apply (leb_nonneg p f64_100 Hp H100) in Hle.
  assert (F64.signed_num f64_100 = 100 * 2 ^ 1074) as N100
    by (rewrite f64_100_value; vm_compute; reflexivity).
  assert (F64.pos_den f64_100 = 1) as D100
    by (rewrite f64_100_value; vm_compute; reflexivity).
  rewrite N100, D100, Z.mul_1_r in Hle.
  destruct (of_uint64_nonneg L) as (HA & _ & DA); [lia|].
  pose proof (of_uint64_exact L HL) as NA.
  set (U := 2 ^ 1074) in *.
  set (Pn := F64.signed_num p) in *. set (Pd := F64.pos_den p) in *.
  assert (0 < Pd * U) as Dpos by (apply Z.mul_pos_pos; lia).
  assert (0 <= V1 <= 2 ^ 60 * U) as HV1.
  { split; [apply round_mag_nonneg; [nia|lia]|].
    pose proof (round_mag_exact 1 (60 + 1074) 1 ltac:(lia) ltac:(lia)
                  ltac:(lia)) as E.
    rewrite Z.mul_1_l, Z.mul_1_r, Z.pow_add_r in E by lia. fold U in E.
    rewrite <- E. apply round_mag_mono; [lia|lia|].
    rewrite Z.mul_1_r.
    assert (L * Pn <= 2 ^ 53 * (100 * U * Pd))
      by (apply Z.mul_le_mono_nonneg; lia).
    assert (2 ^ 53 * 100 <= 2 ^ 60) by (vm_compute; discriminate).
    replace (L * U * Pn) with (U * (L * Pn)) by ring.
    replace (2 ^ 60 * U * (Pd * U)) with (U * (2 ^ 60 * (U * Pd))) by ring.
    apply Z.mul_le_mono_nonneg_l; [lia|]. nia. }
  assert (0 <= V2 <= 2 ^ 54 * U) as HV2.
  { split; [apply round_mag_nonneg; nia|].
    pose proof (round_mag_exact 1 (54 + 1074) (100 * U) ltac:(lia) ltac:(lia)
                  ltac:(lia)) as E.
    rewrite Z.mul_1_l, Z.pow_add_r in E by lia. fold U in E.
    rewrite <- E. apply round_mag_mono; [lia|lia|].
    assert (2 ^ 60 <= 2 ^ 54 * 100) by (vm_compute; discriminate).
    replace (V1 * U * (100 * U)) with (V1 * (U * (100 * U))) by ring.
    replace (2 ^ 54 * U * (100 * U) * (100 * U))
      with (2 ^ 54 * 100 * U * (U * (100 * U))) by ring.
    apply Z.mul_le_mono_nonneg_r; nia. }
  split; [|split; assumption].
  unfold percentOf.
  assert (2 ^ 60 * U < 2 ^ 2098) as Big by (subst U; vm_compute; reflexivity).
  assert (2 ^ 54 * U < 2 ^ 2098) as Big' by (subst U; vm_compute; reflexivity).
  destruct (mul_nonneg (F64.of_uint64 L) p HA Hp) as (HM & NM & DM).
  { rewrite NA, DA, Z.mul_1_l. fold U Pn Pd V1. lia. }
  rewrite NA, DA, Z.mul_1_l in NM. fold U Pn Pd V1 in NM.
  rewrite f64_100_value.
  destruct (div_nonneg (F64.mul (F64.of_uint64 L) p) false
              7036874417766400 (-46) HM) as (HQ & NQ & DQ); [|reflexivity|].
  { rewrite <- f64_100_value, NM, DM, N100, D100, !Z.mul_1_r, Z.mul_1_l.
    fold U V2. lia. }
  rewrite <- f64_100_value, NM, DM, N100, D100, !Z.mul_1_r, Z.mul_1_l in NQ.
  fold U V2 in NQ. rewrite <- f64_100_value in *.
  unfold uint64_of_float64.
  rewrite to_uint64_nonneg; rewrite ?NQ, ?DQ, ?Z.mul_1_l; fold U;
    [reflexivity|assumption|].
  apply Z.div_lt_upper_bound; [lia|].
  assert (2 ^ 54 < 2 ^ 64) by reflexivity. nia.
Qed.

(** A higher percentage gives a threshold at least as high. *)
Lemma percentOf_mono_wide L p q :
  0 <= L < 2 ^ 53 ->
  F64.leb f64_zero p = true -> F64.leb p q = true ->
  F64.leb q f64_100 = true ->
  0 <= percentOf oor L p <= percentOf oor L q.
Proof.
  intros HL Hp0 Hpq Hq100.
  destruct (ordered_percent_nonneg _ _ Hp0 Hpq Hq100) as [Hp Hq].
  assert (F64.nonneg_finite f64_100 = true) as H100
    by (rewrite f64_100_value; reflexivity).
  pose proof (nonneg_finite_sign p Hp) as [Np Dp].
  pose proof (nonneg_finite_sign q Hq) as [Nq Dq].
  pose proof pow1074_pos as P.
  assert (F64.leb p f64_100 = true) as Hp100.
  { apply leb_nonneg; [assumption..|].
    pose proof Hpq as Hpq'. pose proof Hq100 as Hq'.
    apply (leb_nonneg p q Hp Hq) in Hpq'.
    apply (leb_nonneg q f64_100 Hq H100) in Hq'.
    pose proof (nonneg_finite_sign _ H100) as [N1 D1].
    apply Z.mul_le_mono_pos_r with (F64.pos_den q); [assumption|].
    nia. }
  destruct (percentOf_wide L p HL Hp Hp100) as (-> & HV1p & HV2p).
  destruct (percentOf_wide L q HL Hq Hq100) as (-> & HV1q & _).
  apply (leb_nonneg p q Hp Hq) in Hpq.
  split; [apply Z.div_pos; lia|].
  apply Z.div_le_mono; [lia|].
  apply round_mag_mono; [lia|lia|].
  apply Z.mul_le_mono_nonneg_r; [lia|].
  apply Z.mul_le_mono_nonneg_r; [lia|].
  apply round_mag_mono; [nia|nia|].
  assert (0 <= L * 2 ^ 1074) by nia.
  replace (L * 2 ^ 1074 * F64.signed_num p * (F64.pos_den q * 2 ^ 1074))
    with (L * 2 ^ 1074 * 2 ^ 1074 * (F64.signed_num p * F64.pos_den q)) by ring.
  replace (L * 2 ^ 1074 * F64.signed_num q * (F64.pos_den p * 2 ^ 1074))
    with (L * 2 ^ 1074 * 2 ^ 1074 * (F64.signed_num q * F64.pos_den p)) by ring.
  apply Z.mul_le_mono_nonneg_l; [nia|assumption].
Qed.

(** Below [2^52] bytes a percentage of at most 100 never exceeds the
    limit. *)
Lemma percentOf_le_limit L p :
  0 <= L < 2 ^ 52 ->
  F64.nonneg_finite p = true -> F64.leb p f64_100 = true ->
  percentOf oor L p <= L.
Proof.
  intros HL Hp Hle.
  assert (2 ^ 52 < 2 ^ 53) as H5253 by reflexivity.
  destruct (percentOf_wide L p ltac:(lia) Hp Hle) as (-> & HV1 & HV2).
  pose proof pow1074_pos as P.
  pose proof (nonneg_finite_sign p Hp) as [Np Dp].
  assert (F64.nonneg_finite f64_100 = true) as H100
    by (rewrite f64_100_value; reflexivity).
  apply (leb_nonneg p f64_100 Hp H100) in Hle.
  assert (F64.signed_num f64_100 = 100 * 2 ^ 1074) as N100
    by (rewrite f64_100_value; vm_compute; reflexivity).
  assert (F64.pos_den f64_100 = 1) as D100
    by (rewrite f64_100_value; vm_compute; reflexivity).
  rewrite N100, D100, Z.mul_1_r in Hle.
  assert (2 ^ 1074 = 2 * 2 ^ 1073) as EU by (vm_compute; reflexivity).
  assert (2 ^ 53 <= 2 ^ 1074) as HUF by (apply Z.pow_le_mono_r; lia).
  set (U := 2 ^ 1074) in *. set (F := 2 ^ 53) in *.
  set (Pn := F64.signed_num p) in *. set (Pd := F64.pos_den p) in *.
  set (V1 := F64.round_mag (L * U * Pn) (Pd * U)) in *.
  set (V2 := F64.round_mag (V1 * U) (100 * U)) in *.
  assert (0 < F) as HF by (subst F; reflexivity).
  (* the first rounding adds at most 50 *)
  set (W := F64.round_mag (100 * L * U) 1).
  assert (V1 <= W) as HW.
  { apply round_mag_mono; [nia|lia|]. rewrite Z.mul_1_r.
    replace (L * U * Pn) with (L * U * (Pn)) by ring.
    replace (100 * L * U * (Pd * U)) with (L * U * (100 * U * Pd)) by ring.
    apply Z.mul_le_mono_nonneg_l; [nia|exact Hle]. }
  assert (W <= (100 * L + 50) * U) as HW2.
  { destruct (Z.eq_dec L 0) as [->|NZ].
    - subst W. rewrite Z.mul_0_r, Z.mul_0_l, round_mag_zero by lia. lia.
    - pose proof (round_mag_relative (100 * L * U) 1 ltac:(lia)) as R.
      fold F in R. rewrite Z.mul_1_r in R.
      destruct R as [_ R]; [nia|]. fold W in R.
      assert (2 * 2 ^ 52 = F) as E2 by (subst F; reflexivity).
      apply Z.mul_le_mono_pos_l with F; [lia|].
      transitivity (100 * L * U * (F + 1)); [exact R|].
      assert (100 * L * U <= 50 * F * U).
      { replace (50 * F * U) with (100 * 2 ^ 52 * U) by lia.
        apply Z.mul_le_mono_nonneg_r; lia. }
      lia. }
  (* the second rounding stays at or below [L] and a half *)
  assert (V2 <= (2 * L + 1) * 2 ^ 1073) as HV2'.
  { pose proof (round_mag_exact (2 * L + 1) 1073 (100 * U) ltac:(lia)
                  ltac:(lia) ltac:(lia)) as E.
    rewrite <- E. apply round_mag_mono; [lia|lia|].
    assert (V1 <= (2 * L + 1) * 2 ^ 1073 * 100) by lia.
    replace (V1 * U * (100 * U)) with (V1 * (U * (100 * U))) by ring.
    replace ((2 * L + 1) * 2 ^ 1073 * (100 * U) * (100 * U))
      with ((2 * L + 1) * 2 ^ 1073 * 100 * (U * (100 * U))) by ring.
    apply Z.mul_le_mono_nonneg_r; nia. }
  assert (V2 / U < L + 1); [|lia].
  apply Z.div_lt_upper_bound; [lia|]. lia.
Qed.

(** With a gap of three bytes between the exact percentages, the thresholds
    differ. *)
Lemma percentOf_gap L s h :
  0 <= L < 2 ^ 52 ->
  F64.leb f64_zero s = true -> F64.leb s h = true ->
  F64.leb h f64_100 = true ->
  300 * 2 ^ 1074 * F64.pos_den h * F64.pos_den s
  <= L * F64.signed_num h * F64.pos_den s
     - L * F64.signed_num s * F64.pos_den h ->
  percentOf oor L s < percentOf oor L h.
Proof.
  intros HL Hs0 Hsh Hh100 Hgap.
  assert (2 ^ 52 < 2 ^ 53) as H5253 by reflexivity.
  destruct (ordered_percent_nonneg _ _ Hs0 Hsh Hh100) as [Hs Hh].
  assert (F64.nonneg_finite f64_100 = true) as H100
    by (rewrite f64_100_value; reflexivity).
  pose proof (nonneg_finite_sign s Hs) as [Ns Ds].
  pose proof (nonneg_finite_sign h Hh) as [Nh Dh].
  pose proof pow1074_pos as P.
  assert (F64.signed_num f64_100 = 100 * 2 ^ 1074) as N100
    by (rewrite f64_100_value; vm_compute; reflexivity).
  assert (F64.pos_den f64_100 = 1) as D100
    by (rewrite f64_100_value; vm_compute; reflexivity).
  pose proof Hsh as Hsh'. apply (leb_nonneg s h Hs Hh) in Hsh'.
  pose proof Hh100 as Hh'. apply (leb_nonneg h f64_100 Hh H100) in Hh'.
  rewrite N100, D100, Z.mul_1_r in Hh'.
  assert (F64.leb s f64_100 = true) as Hs100.
  { apply leb_nonneg; [assumption..|]. rewrite N100, D100, Z.mul_1_r.
    apply Z.mul_le_mono_pos_r with (F64.pos_den h); [assumption|]. nia. }
  destruct (percentOf_wide L s ltac:(lia) Hs Hs100) as (-> & HV1s & HV2s).
  destruct (percentOf_wide L h ltac:(lia) Hh Hh100) as (-> & HV1h & HV2h).
  assert (2 ^ 53 < 2 ^ 1074) as HUF by (apply Z.pow_lt_mono_r; lia).
  assert (2 * 2 ^ 52 = 2 ^ 53) as E52 by reflexivity.
  set (U := 2 ^ 1074) in *. set (F := 2 ^ 53) in *.
  set (Sn := F64.signed_num s) in *. set (Sd := F64.pos_den s) in *.
  set (Hn := F64.signed_num h) in *. set (Hd := F64.pos_den h) in *.
  set (V1s := F64.round_mag (L * U * Sn) (Sd * U)) in *.
  set (V2s := F64.round_mag (V1s * U) (100 * U)) in *.
  set (V1h := F64.round_mag (L * U * Hn) (Hd * U)) in *.
  set (V2h := F64.round_mag (V1h * U) (100 * U)) in *.
  assert (0 < F) as HF by (subst F; reflexivity).
  assert (2 <= F) as HF2 by (subst F; vm_compute; discriminate).
  (* the hard threshold from below *)
  assert (300 * U * Hd <= L * Hn) as HLH.
  { apply Z.mul_le_mono_pos_r with Sd; [assumption|].
    assert (0 <= L * Sn * Hd) by (apply Z.mul_nonneg_nonneg; nia). lia. }
  assert (L * Hn * (F - 1) <= F * Hd * V1h) as R1h.
  { pose proof (round_mag_relative (L * U * Hn) (Hd * U)
                  ltac:(apply Z.mul_pos_pos; lia)) as R.
    fold F V1h in R. destruct R as [R _].
    - replace (F * (Hd * U)) with (U * (F * Hd)) by ring.
      replace (L * U * Hn) with (U * (L * Hn)) by ring.
      apply Z.mul_le_mono_nonneg_l; [lia|]. nia.
    - apply Z.mul_le_mono_pos_r with U; [lia|]. lia. }
  assert (100 * F <= V1h) as HV1big.
  { apply Z.mul_le_mono_pos_l with (F * Hd); [nia|].
    transitivity (L * Hn * (F - 1)); [|lia].
    transitivity (300 * U * Hd * (F - 1));
      [|apply Z.mul_le_mono_nonneg_r; lia].
    assert (F * (100 * F) <= 300 * U * (F - 1)) by nia.
    replace (F * Hd * (100 * F)) with (Hd * (F * (100 * F))) by ring.
    replace (300 * U * Hd * (F - 1)) with (Hd * (300 * U * (F - 1))) by ring.
    apply Z.mul_le_mono_nonneg_l; lia. }
  assert (V1h * (F - 1) <= 100 * F * V2h) as R2h.
  { pose proof (round_mag_relative (V1h * U) (100 * U) ltac:(lia)) as R.
    fold F V2h in R. destruct R as [R _]; [nia|].
    apply Z.mul_le_mono_pos_r with U; [lia|]. lia. }
  assert (L * Hn * ((F - 1) * (F - 1)) <= 100 * (F * F) * Hd * V2h) as LH.
  { transitivity (F * Hd * V1h * (F - 1)).
    - replace (L * Hn * ((F - 1) * (F - 1)))
        with (L * Hn * (F - 1) * (F - 1)) by ring.
      apply Z.mul_le_mono_nonneg_r; lia.
    - replace (F * Hd * V1h * (F - 1)) with (F * Hd * (V1h * (F - 1))) by ring.
      replace (100 * (F * F) * Hd * V2h) with (F * Hd * (100 * F * V2h)) by ring.
      apply Z.mul_le_mono_nonneg_l; [nia|exact R2h]. }
  assert (U <= V2h) as Hhard.
  { apply Z.mul_le_mono_pos_l with (100 * (F * F) * Hd); [nia|].
    transitivity (L * Hn * ((F - 1) * (F - 1))); [|lia].
    transitivity (300 * U * Hd * ((F - 1) * (F - 1)));
      [|apply Z.mul_le_mono_nonneg_r; nia].
    assert (F * F <= 3 * ((F - 1) * (F - 1))) by nia.
    replace (100 * (F * F) * Hd * U) with (100 * U * Hd * (F * F)) by ring.
    replace (300 * U * Hd * ((F - 1) * (F - 1)))
      with (100 * U * Hd * (3 * ((F - 1) * (F - 1)))) by ring.
    apply Z.mul_le_mono_nonneg_l; nia. }
  (* the soft threshold from above *)
  assert (V1s <= F \/ F * Sd * V1s <= L * Sn * (F + 1)) as R1s.
  { destruct (Z_lt_le_dec (L * U * Sn) (F * (Sd * U))) as [Sm|Bg].
    - left. apply round_mag_small_le; [nia|].
      apply Z.div_lt_upper_bound; [nia|]. lia.
    - right. pose proof (round_mag_relative (L * U * Sn) (Sd * U)
                           ltac:(apply Z.mul_pos_pos; lia) Bg) as [_ R].
      fold F V1s in R.
      apply Z.mul_le_mono_pos_r with U; [lia|]. lia. }
  assert (V2s <= F \/ 100 * F * V2s <= V1s * (F + 1)) as R2s.
  { destruct (Z_lt_le_dec (V1s * U) (F * (100 * U))) as [Sm|Bg].
    - left. apply round_mag_small_le; [lia|].
      apply Z.div_lt_upper_bound; lia.
    - right. pose proof (round_mag_relative (V1s * U) (100 * U)
                           ltac:(lia) Bg) as [_ R].
      fold F V2s in R.
      apply Z.mul_le_mono_pos_r with U; [lia|]. lia. }
  assert (V2s <= F \/ 100 * (F * F) * Sd * V2s
                      <= L * Sn * ((F + 1) * (F + 1))) as US.
  { destruct R2s as [S2|R2s]; [left; exact S2|].
    destruct R1s as [S1|R1s].
    - left. assert (100 * F * V2s <= F * (F + 1)) by nia. nia.
    - right. transitivity (F * Sd * V1s * (F + 1)).
      + replace (100 * (F * F) * Sd * V2s)
          with (F * Sd * (100 * F * V2s)) by ring.
        replace (F * Sd * V1s * (F + 1)) with (F * Sd * (V1s * (F + 1))) by ring.
        apply Z.mul_le_mono_nonneg_l; [nia|exact R2s].
      + replace (L * Sn * ((F + 1) * (F + 1)))
          with (L * Sn * (F + 1) * (F + 1)) by ring.
        apply Z.mul_le_mono_nonneg_r; lia. }
  assert (V2s + U <= V2h) as Hstep.
  { destruct US as [Ssm|US]; [|].
    { (* the soft threshold is zero: compare with the hard one directly *)
      assert (F + U <= V2h); [|lia].
      apply Z.mul_le_mono_pos_l with (100 * (F * F) * Hd); [nia|].
      transitivity (L * Hn * ((F - 1) * (F - 1))); [|lia].
      transitivity (300 * U * Hd * ((F - 1) * (F - 1)));
        [|apply Z.mul_le_mono_nonneg_r; nia].
      assert (F * F * (F + U) <= 3 * U * ((F - 1) * (F - 1))) by nia.
      replace (100 * (F * F) * Hd * (F + U))
        with (100 * Hd * (F * F * (F + U))) by ring.
      replace (300 * U * Hd * ((F - 1) * (F - 1)))
        with (100 * Hd * (3 * U * ((F - 1) * (F - 1)))) by ring.
      apply Z.mul_le_mono_nonneg_l; nia. }
    apply Z.mul_le_mono_pos_l with (100 * (F * F) * (Hd * Sd)); [nia|].
    set (A := L * Hn * Sd) in *. set (B := L * Sn * Hd) in *.
    set (D := U * Hd * Sd).
    assert (0 <= B) as B0 by (subst B; apply Z.mul_nonneg_nonneg; nia).
    assert (0 < D) as D0 by (subst D; nia).
    assert (B <= A) as BA.
    { subst A B. replace (L * Sn * Hd) with (L * (Sn * Hd)) by ring.
      replace (L * Hn * Sd) with (L * (Hn * Sd)) by ring.
      apply Z.mul_le_mono_nonneg_l; lia. }
    assert (A <= 100 * L * D) as AD.
    { subst A D. replace (L * Hn * Sd) with (L * Sd * Hn) by ring.
      replace (100 * L * (U * Hd * Sd)) with (L * Sd * (100 * U * Hd)) by ring.
      apply Z.mul_le_mono_nonneg_l; nia. }
    assert (300 * D <= A - B) as GD by (subst D; lia).
    assert (A * ((F - 1) * (F - 1)) <= 100 * (F * F) * (Hd * Sd) * V2h) as LH'.
    { subst A. replace (L * Hn * Sd * ((F - 1) * (F - 1)))
        with (L * Hn * ((F - 1) * (F - 1)) * Sd) by ring.
      replace (100 * (F * F) * (Hd * Sd) * V2h)
        with (100 * (F * F) * Hd * V2h * Sd) by ring.
      apply Z.mul_le_mono_nonneg_r; lia. }
    assert (100 * (F * F) * (Hd * Sd) * V2s <= B * ((F + 1) * (F + 1))) as US'.
    { subst B. replace (100 * (F * F) * (Hd * Sd) * V2s)
        with (100 * (F * F) * Sd * V2s * Hd) by ring.
      replace (L * Sn * Hd * ((F + 1) * (F + 1)))
        with (L * Sn * ((F + 1) * (F + 1)) * Hd) by ring.
      apply Z.mul_le_mono_nonneg_r; lia. }
    assert (300 * D * (F * F) <= (A - B) * (F * F)) as h1
      by (apply Z.mul_le_mono_nonneg_r; nia).
    assert (F * (A + B) <= F * (200 * L * D)) as h2
      by (apply Z.mul_le_mono_nonneg_l; lia).
    assert (F * (200 * L * D) <= F * (100 * F * D)) as h3.
    { apply Z.mul_le_mono_nonneg_l; [lia|].
      replace (200 * L * D) with (100 * D * (2 * L)) by ring.
      replace (100 * F * D) with (100 * D * F) by ring.
      apply Z.mul_le_mono_nonneg_l; lia. }
    assert (100 * (F * F) * (Hd * Sd) * U = 100 * (F * F) * D) as ED
      by (subst D; ring).
    replace (100 * (F * F) * (Hd * Sd) * (V2s + U))
      with (100 * (F * F) * (Hd * Sd) * V2s
            + 100 * (F * F) * (Hd * Sd) * U) by ring.
    rewrite ED. lia. }
  assert (V2s / U + 1 <= V2h / U); [|lia].
  replace (V2s / U + 1) with ((V2s + 1 * U) / U)
    by (rewrite Z.div_add by lia; reflexivity).
  apply Z.div_le_mono; lia.
Qed.

(** A whole percentage of a limit below [2^46] is exact. *)
Lemma percentOf_whole L a :
  0 <= L < 2 ^ 46 -> 0 <= a <= 100 ->
  percentOf oor L (F64.of_uint64 a) = L * a / 100.
Proof.
  intros HL Ha.
  pose proof pow1074_pos as P.
  assert (2 ^ 46 * 128 = 2 ^ 53) as E46 by reflexivity.
  assert (2 ^ 46 < 2 ^ 53) as H4653 by reflexivity.
  assert (2 ^ 53 < 2 ^ 64) as H5364 by reflexivity.
  destruct (of_uint64_nonneg a) as (Hp & _ & Dp); [lia|].
  pose proof (of_uint64_exact a ltac:(lia)) as Np.
  assert (F64.nonneg_finite f64_100 = true) as H100
    by (rewrite f64_100_value; reflexivity).
  assert (F64.leb (F64.of_uint64 a) f64_100 = true) as Hle.
  { apply leb_nonneg; [assumption..|].
    assert (F64.signed_num f64_100 = 100 * 2 ^ 1074) as ->
      by (rewrite f64_100_value; vm_compute; reflexivity).
    assert (F64.pos_den f64_100 = 1) as ->
      by (rewrite f64_100_value; vm_compute; reflexivity).
    rewrite Np, Dp. nia. }
  destruct (percentOf_wide L _ ltac:(lia) Hp Hle) as (-> & _ & _).
  rewrite Np, Dp, Z.mul_1_l.
  assert (2 ^ 1074 = 128 * 2 ^ 1067) as EU by (vm_compute; reflexivity).
  set (U := 2 ^ 1074) in *.
  assert (0 <= L * a) as La0 by nia.
  assert (L * a < 2 ^ 53) as Lahi by nia.
  assert (F64.round_mag (L * U * (a * U)) U = L * a * U) as ->.
  { replace (L * U * (a * U)) with (L * a * 2 ^ 1074 * U) by (subst U; ring).
    apply round_mag_exact; lia. }
  destruct (div_mod_eqs (L * a) 100 ltac:(lia)) as [E R].
  set (q := L * a / 100) in *. set (r := (L * a) mod 100) in *.
  assert (0 <= q) as q0 by (subst q; apply Z.div_pos; lia).
  assert (q < 2 ^ 46) as qhi by nia.
  set (V2 := F64.round_mag (L * a * U * U) (100 * U)).
  assert (q * U <= V2) as Lo.
  { pose proof (round_mag_exact q 1074 (100 * U) ltac:(lia) ltac:(lia)
                  ltac:(lia)) as Ex. fold U in Ex.
    rewrite <- Ex. apply round_mag_mono; [lia|lia|].
    replace (q * U * (100 * U) * (100 * U))
      with (100 * q * (U * U * (100 * U))) by ring.
    replace (L * a * U * U * (100 * U))
      with (L * a * (U * U * (100 * U))) by ring.
    apply Z.mul_le_mono_nonneg_r; nia. }
  assert (V2 <= (128 * (q + 1) - 1) * 2 ^ 1067) as Hi.
  { pose proof (round_mag_exact (128 * (q + 1) - 1) 1067 (100 * U)
                  ltac:(lia) ltac:(lia) ltac:(lia)) as Ex.
    rewrite <- Ex. apply round_mag_mono; [lia|lia|].
    assert (0 < 2 ^ 1067) by (apply Z.pow_pos_nonneg; lia).
    replace (L * a * U * U * (100 * U))
      with (128 * (L * a) * (2 ^ 1067 * U * (100 * U))) by (rewrite EU; ring).
    replace ((128 * (q + 1) - 1) * 2 ^ 1067 * (100 * U) * (100 * U))
      with ((128 * (q + 1) - 1) * 100 * (2 ^ 1067 * U * (100 * U))) by ring.
    apply Z.mul_le_mono_nonneg_r; [nia|]. lia. }
  assert (0 < 2 ^ 1067) as PW by (apply Z.pow_pos_nonneg; lia).
  assert ((128 * (q + 1) - 1) * 2 ^ 1067 = q * U + U - 2 ^ 1067) as EH
    by (rewrite EU; ring).
  symmetry. apply Z.div_unique with (V2 - q * U); lia.
Qed.

End Thresholds.

(** C3 (as amended).  For a merged configuration whose percentages satisfy
    [0 <= soft <= hard <= 100] and a raw limit below 2^52 bytes, the
    thresholds satisfy [0 <= soft_warn <= hard_kill <= cgroup_limit], and
    [soft_warn < hard_kill] as soon as the exact percentages of the limit
    are three bytes apart.  When the percentages are whole numbers [a] and
    [b] and the limit is below 2^46 bytes, the thresholds are exactly the
    integer parts of [limit * a / 100] and [limit * b / 100], hence
    [soft_warn < hard_kill] as soon as [limit * (b - a) >= 100]. *)
Theorem thresholds_within_limit oor environ m static custom L :
  let config := MergeConfigs environ static custom in
  let l := (ComputeLimits oor m config).1 in
  let s := SoftLimitPercent (Watchdog config) in
  let h := HardLimitPercent (Watchdog config) in
  limit_source m config L ->
  0 <= L < 2 ^ 52 ->
  F64.leb f64_zero s = true -> F64.leb s h = true ->
  F64.leb h f64_100 = true ->
  (0 <= SoftWarnBytes l <= HardKillBytes l
   /\ HardKillBytes l <= CgroupLimitBytes l)
  /\ (threshold_gap L s h 3 -> SoftWarnBytes l < HardKillBytes l)
  /\ (forall a b : Z,
        s = F64.of_uint64 a -> h = F64.of_uint64 b ->
        0 <= a <= 100 -> 0 <= b <= 100 -> L < 2 ^ 46 ->
        SoftWarnBytes l = L * a / 100
        /\ HardKillBytes l = L * b / 100
        /\ (100 <= L * (b - a) -> SoftWarnBytes l < HardKillBytes l)).
Proof.
  intros config l s h Hsrc HL H0 H1 H2. subst l.
  destruct (ComputeLimits_from_source oor m config L Hsrc) as [v ->].
  cbn [fst computeThresholds SoftWarnBytes HardKillBytes CgroupLimitBytes].
  fold s h.
  assert (2 ^ 52 < 2 ^ 53) as H5253 by reflexivity.
  destruct (ordered_percent_nonneg _ _ H0 H1 H2) as [Hs Hh].
  pose proof (percentOf_mono_wide oor L s h ltac:(lia) H0 H1 H2) as Hmono.
  pose proof (percentOf_le_limit oor L h HL Hh H2) as Hb.
  split; [lia|]. split.
  - intros Hgap. apply percentOf_gap; assumption.
  - intros a b -> -> Ha Hb' HL46.
    rewrite !percentOf_whole by lia.
    split; [reflexivity|]. split; [reflexivity|].
    intros Hab.
    assert (L * a / 100 + 1 <= L * b / 100); [|lia].
    replace (L * a / 100 + 1) with ((L * a + 1 * 100) / 100)
      by (rewrite Z.div_add by lia; reflexivity).
    apply Z.div_le_mono; lia.
Qed.

Lemma thresholds_within_limit_witness :
  let l := (ComputeLimits (fun _ => 0) empty_limiter
              (MergeConfigs [] (static_fixed 1073741824) no_custom)).1 in
  (0 <= SoftWarnBytes l <= HardKillBytes l
   /\ HardKillBytes l <= CgroupLimitBytes l)
  /\ SoftWarnBytes l < HardKillBytes l.
Proof.
  destruct (thresholds_within_limit (fun _ => 0) [] empty_limiter
              (static_fixed 1073741824) no_custom 1073741824)
    as (H1 & H2 & _).
  - left. repeat split. discriminate.
  - split; [discriminate | vm_compute; reflexivity].
  - vm_compute. reflexivity.
  - vm_compute. reflexivity.
  - vm_compute. reflexivity.
  - split; [exact H1|]. apply H2. vm_compute. discriminate.
Defined.

(** C3 as stated fails: with the default percentages and a limit of two
    bytes both thresholds are 1; a custom soft percentage of 99 puts the
    soft threshold above the hard one; a hard percentage of 150 puts the
    hard threshold above the limit; and with a hard percentage of 100 and a
    limit of 2^53 - 7 bytes the two roundings put the hard threshold one
    byte above the limit. *)
Lemma thresholds_not_strictly_ordered :
  ~ thresholds_strictly_ordered
      (ComputeLimits (fun _ => 0) empty_limiter
         (MergeConfigs [] (static_fixed 2) no_custom)).1
  /\ ~ thresholds_strictly_ordered
         (ComputeLimits (fun _ => 0) empty_limiter
            (MergeConfigs [] (static_fixed 1073741824)
               (custom_percent (F64.of_uint64 99) f64_zero))).1
  /\ ~ thresholds_strictly_ordered
         (ComputeLimits (fun _ => 0) empty_limiter
            (MergeConfigs [] (static_fixed 1073741824)
               (custom_percent f64_zero (F64.of_uint64 150)))).1
  /\ ~ thresholds_strictly_ordered
         (ComputeLimits (fun _ => 0) empty_limiter
            (MergeConfigs [] (static_fixed (2 ^ 53 - 7))
               (custom_percent f64_zero (F64.of_uint64 100)))).1.
Proof.
  unfold thresholds_strictly_ordered.
  split; [|split; [|split]];
    match goal with
    | |- context [ (ComputeLimits ?o ?m ?c).1 ] =>
        let v := eval vm_compute in (ComputeLimits o m c).1 in
        replace (ComputeLimits o m c).1 with v by (vm_compute; reflexivity)
    end;
    cbn [SoftWarnBytes HardKillBytes CgroupLimitBytes];
    intros H; destruct H as [H1 H2]; try discriminate; lia.
Qed.

(** C10 (as amended).  When [ComputeLimits] succeeds in [fixed] or
    [cgroup-aware] mode on a limit [L > 0], with a percentage that is finite
    and not negative and a fragmentation buffer that is finite and at most
    1, the effective limit is at least 64 MiB; it is exactly 64 MiB whenever
    [L * max_rss_percent / 100 * (1 - heap_fragmentation_buffer)], in exact
    arithmetic, is below 64 MiB; and it exceeds the raw limit whenever the
    raw limit is below 64 MiB. *)
Theorem effective_limit_floor oor m config L :
  let p := MaxRSSPercent (Memory config) in
  let b := HeapFragmentationBuffer (Memory config) in
  let l := (ComputeLimits oor m config).1 in
  limit_source m config L ->
  0 < L < 2 ^ 64 ->
  binary64 p = true -> F64.nonneg_finite p = true ->
  binary64 b = true -> F64.is_finite b = true ->
  F64.leb b f64_one = true ->
  CgroupLimitBytes l = L
  /\ minimumEffectiveLimitBytes <= EffectiveLimitBytes l
  /\ (reduction_below_floor L p b ->
      EffectiveLimitBytes l = minimumEffectiveLimitBytes)
  /\ (L < minimumEffectiveLimitBytes ->
      CgroupLimitBytes l < EffectiveLimitBytes l).
Proof.
  intros p b l Hsrc HL Wp Hp Wb Fb Hb1. subst l.
  destruct (ComputeLimits_from_source oor m config L Hsrc) as [v ->].
  cbn [fst computeThresholds EffectiveLimitBytes CgroupLimitBytes].
  assert (minimumEffectiveLimitBytes = 2 ^ 26) as Emin by reflexivity.
  split; [reflexivity|].
  destruct (Z.ltb_spec (reducedLimit oor config L) minimumEffectiveLimitBytes)
    as [Hlt|Hge].
  - split; [lia|]. split; [reflexivity|lia].
  - split; [lia|]. split; [|lia].
    intros HX.
    pose proof (reducedLimit_upper oor config L ltac:(lia) Hp Wp Fb Wb Hb1)
      as Hup.
    assert (0 <= reducedLimit oor config L <= 2 ^ 26); [|lia].
    apply Hup. unfold reduction_below_floor in HX.
    destruct (binary64_value _ Wp) as [Dp _].
    destruct (binary64_value _ Wb) as [Db _].
    fold p b in Dp, Db |- *. rewrite Dp, Db, Emin in HX.
    rewrite !Z.mul_1_l, Z.mul_1_r in HX. lia.
Qed.

Lemma effective_limit_floor_witness :
  let l := (ComputeLimits (fun _ => 0) empty_limiter
              (MergeConfigs [] (static_fixed 83886080) no_custom)).1 in
  CgroupLimitBytes l = 83886080 /\ EffectiveLimitBytes l = 67108864.
Proof.
  destruct (effective_limit_floor (fun _ => 0) empty_limiter
              (MergeConfigs [] (static_fixed 83886080) no_custom) 83886080)
    as (H1 & _ & H3 & _).
  - left. repeat split. discriminate.
  - split; reflexivity.
  - vm_compute. reflexivity.
  - vm_compute. reflexivity.
  - vm_compute. reflexivity.
  - vm_compute. reflexivity.
  - vm_compute. reflexivity.
  - split; [exact H1|]. apply H3. vm_compute. reflexivity.
Defined.

(** C10 as stated fails outside these ranges: with a fragmentation buffer
    of 1.5 the factor [1 - buffer] is negative, the exact product of a 1 GiB
    limit is below 64 MiB, and the conversion of the negative product to
    [uint64], which the language leaves to the implementation, wraps around
    on x86-64: the effective limit is nearly 2^64 bytes. *)
Lemma floor_missed_with_buffer_above_one :
  let config := config_of (buffer_memory 1073741824 (F64.of_ratio 15 10))
                  DefaultWatchdogConfig in
  let l := (ComputeLimits uint64_wraparound empty_limiter config).1 in
  limit_source empty_limiter config 1073741824
  /\ reduction_below_floor 1073741824 (MaxRSSPercent (Memory config))
       (HeapFragmentationBuffer (Memory config))
  /\ EffectiveLimitBytes l = 18446744073306898432
  /\ EffectiveLimitBytes l <> minimumEffectiveLimitBytes.
Proof.
  cbn zeta. split; [left; repeat split; discriminate|].
  split; [vm_compute; reflexivity|].
  assert (EffectiveLimitBytes
            (ComputeLimits uint64_wraparound empty_limiter
               (config_of (buffer_memory 1073741824 (F64.of_ratio 15 10))
                  DefaultWatchdogConfig)).1 = 18446744073306898432) as ->
    by (vm_compute; reflexivity).
  split; [reflexivity|discriminate].
Qed.

(** ** The watchdog *)

Section Watchdog.

Lemma sigterm_count_app evs1 evs2 :
  sigterm_count (evs1 ++ evs2)
  = (sigterm_count evs1 + sigterm_count evs2)%nat.
Proof. induction evs1 as [|e evs1 IH]; cbn; [reflexivity|rewrite IH; lia]. Qed.

(** From [hard_limit] on, a check changes nothing and sends nothing. *)
Lemma check_absorbing w t :
  2 <= state_value (state w) ->
  (check w t).1.1 = w /\ sigterm_count (check w t).1.2 = O.
Proof.
  intros Hs. unfold check. destruct (tick_rss t) as [rss|]; [|split; reflexivity].
  change (state_value WatchdogStateHardLimit) with 2.
  change (state_value WatchdogStateSoftWarning) with 1.
  destruct (Z.ltb_spec (state_value (state w)) 2); [lia|].
  destruct (Z.ltb_spec (state_value (state w)) 1); [lia|].
  destruct (Z.eqb_spec (state_value (state w)) 1); [lia|].
  rewrite !andb_false_r. split; reflexivity.
Qed.

(** A check sends SIGTERM at most once, and when it does the watchdog ends
    in [terminating]. *)
Lemma check_sigterm w t :
  (sigterm_count (check w t).1.2 <= 1)%nat
  /\ (sigterm_count (check w t).1.2 = 1%nat ->
      state (check w t).1.1 = WatchdogStateTerminating).
Proof.
  unfold check. destruct (tick_rss t) as [rss|]; [|cbn; split; [lia|discriminate]].
  destruct (_ && _).
  - unfold terminateProcess. destruct (tick_kill_ok t); cbn; split; auto.
  - destruct (_ && _); [cbn; split; [lia|discriminate]|].
    destruct (_ && _); cbn; split; try lia; discriminate.
Qed.

Lemma checks_absorbing ticks : forall w,
  2 <= state_value (state w) ->
  (forall j sj, (checks w ticks).1 !! j = Some sj -> sj = state w)
  /\ sigterm_count (checks w ticks).2 = O.
Proof.
  induction ticks as [|t ticks IH]; intros w Hs; cbn [checks].
  - cbn [fst snd]. split; [intros j sj; rewrite lookup_nil; discriminate|reflexivity].
  - destruct (check_absorbing w t Hs) as [Ew Ec].
    destruct (check w t) as [[w1 evs] b]. cbn [fst snd] in Ew, Ec. subst w1.
    destruct (IH w Hs) as [IH1 IH2].
    destruct (checks w ticks) as [sts evs2]. cbn [fst snd] in *.
    split.
    + intros [|j] sj; cbn; [congruence|apply IH1].
    + rewrite sigterm_count_app, Ec, IH2. reflexivity.
Qed.

Lemma checks_sigterm_once ticks : forall w,
  (sigterm_count (checks w ticks).2 <= 1)%nat.
Proof.
  induction ticks as [|t ticks IH]; intros w; cbn [checks]; [cbn; lia|].
  destruct (check_sigterm w t) as [Hle Hterm].
  destruct (check w t) as [[w1 evs] b]. cbn [fst snd] in Hle, Hterm.
  specialize (IH w1).
  destruct (Nat.eq_dec (sigterm_count evs) 1%nat) as [E|NE].
  - assert (2 <= state_value (state w1)) as Hs by (rewrite (Hterm E); cbn; lia).
    destruct (checks_absorbing ticks w1 Hs) as [_ Hz].
    destruct (checks w1 ticks) as [sts evs2]. cbn [fst snd] in *.
    rewrite sigterm_count_app, Hz. lia.
  - destruct (checks w1 ticks) as [sts evs2]. cbn [fst snd] in *.
    rewrite sigterm_count_app. lia.
Qed.

Lemma checks_never_back ticks : forall w (i j : nat) si sj,
  (i <= j)%nat ->
  (checks w ticks).1 !! i = Some si -> (checks w ticks).1 !! j = Some sj ->
  2 <= state_value si -> sj = si.
Proof.
  induction ticks as [|t ticks IH]; intros w i j si sj Hij; cbn [checks].
  - cbn [fst]. rewrite lookup_nil. discriminate.
  - destruct (check w t) as [[w1 evs] b].
    pose proof (checks_absorbing ticks w1) as Habs.
    specialize (IH w1).
    destruct (checks w1 ticks) as [sts evs2]. cbn [fst snd] in *.
    destruct i as [|i], j as [|j]; cbn; try lia.
    + congruence.
    + intros [= <-] Hj Hs. apply (proj1 (Habs Hs) j sj Hj).
    + intros Hi Hj Hs. apply (IH i j si sj); [lia|assumption..].
Qed.

End Watchdog.

(** C2 (as amended).  One tick with reading [rss]: when [rss >= hard_kill]
    and the state is below [hard_limit], the state is set to [hard_limit]
    and then, in the same tick, to [terminating], SIGTERM is sent once and
    the check reports a trigger; otherwise [rss >= soft_warn] below
    [soft_warning] gives [soft_warning]; otherwise [rss < soft_warn] in
    [soft_warning] gives [healthy]; in every other case nothing changes.
    Over every sequence of ticks SIGTERM is sent at most once, and once the
    state is [hard_limit] or beyond it never changes again. *)
Theorem watchdog_transitions (w : RSSWatchdog) (rss : Z) (kill_ok : bool)
    (ticks : list Tick) :
  let t := {| tick_rss := Some rss; tick_kill_ok := kill_ok |} in
  let H := HardKillBytes (limits w) in
  let S := SoftWarnBytes (limits w) in
  let st := state_value (state w) in
  (H <= rss -> st < 2 ->
   check w t
   = (set_state w WatchdogStateTerminating,
      [EvSetState WatchdogStateHardLimit; EvLogHardLimit rss;
       EvSetState WatchdogStateTerminating; EvKill (pid w) SIGTERM;
       if kill_ok
       then EvScheduleKill (pid w) (GracePeriodSeconds (config w)) SIGKILL
       else EvLogKillFailed],
      true))
  /\ (~ (H <= rss /\ st < 2) -> S <= rss -> st < 1 ->
      check w t
      = (set_state w WatchdogStateSoftWarning,
         [EvSetState WatchdogStateSoftWarning; EvLogSoftWarning rss], false))
  /\ (~ (H <= rss /\ st < 2) -> rss < S -> st = 1 ->
      check w t
      = (set_state w WatchdogStateHealthy,
         [EvSetState WatchdogStateHealthy; EvLogRecovered rss], false))
  /\ (~ (H <= rss /\ st < 2) -> ~ (S <= rss /\ st < 1) ->
      ~ (rss < S /\ st = 1) ->
      check w t = (w, [], false))
  /\ (sigterm_count (checks w ticks).2 <= 1)%nat
  /\ (forall (i j : nat) si sj,
        (i <= j)%nat ->
        (checks w ticks).1 !! i = Some si ->
        (checks w ticks).1 !! j = Some sj ->
        2 <= state_value si -> sj = si)
  /\ (2 <= st ->
      forall (j : nat) sj, (checks w ticks).1 !! j = Some sj -> sj = state w).
Proof.
  intros t H S st.
  unfold check. cbn [tick_rss tick_kill_ok t].
  change (state_value WatchdogStateHardLimit) with 2.
  change (state_value WatchdogStateSoftWarning) with 1.
  fold H S st.
  destruct (Z.leb_spec H rss) as [H1|H1];
    destruct (Z.ltb_spec st 2) as [H2|H2];
    destruct (Z.leb_spec S rss) as [H3|H3];
    destruct (Z.ltb_spec st 1) as [H4|H4];
    destruct (Z.ltb_spec rss S) as [H5|H5];
    destruct (Z.eqb_spec st 1) as [H6|H6];
    cbn [andb]; unfold terminateProcess; cbn [pid config set_state];
    (split; [intros; try lia; destruct kill_ok; reflexivity|]);
    (split; [intros; try lia; reflexivity|]);
    (split; [intros; try lia; reflexivity|]);
    (split; [intros; try lia; reflexivity|]);
    (split; [apply checks_sigterm_once|]);
    (split; [apply checks_never_back|]);
    intros Hs; apply checks_absorbing; assumption.
Qed.

Lemma watchdog_transitions_witness :
  check sample_watchdog (reading 951)
  = (set_state sample_watchdog WatchdogStateTerminating,
     [EvSetState WatchdogStateHardLimit; EvLogHardLimit 951;
      EvSetState WatchdogStateTerminating; EvKill 4242 SIGTERM;
      EvScheduleKill 4242 30 SIGKILL], true).
Proof.
  pose proof (watchdog_transitions sample_watchdog 951 true []) as H.
  cbv zeta in H. destruct H as (H1 & _).
  apply H1; cbn; lia.
Defined.

(** C2 as stated fails: the tick that crosses the hard threshold does not
    leave the watchdog in [hard_limit]; [terminateProcess] has already moved
    it to [terminating]. *)
Lemma hard_tick_ends_terminating :
  state (check sample_watchdog (reading 951)).1.1 <> WatchdogStateHardLimit
  /\ state (check sample_watchdog (reading 951)).1.1 = WatchdogStateTerminating.
Proof. split; [discriminate|reflexivity]. Qed.

(** The sixth scenario of the specification, readings
    [S-1, S+1, S+1, H+1]: the states after the four ticks, and what was done. *)
Example watchdog_scenario :
  checks sample_watchdog [reading 849; reading 851; reading 851; reading 951]
  = ([WatchdogStateHealthy; WatchdogStateSoftWarning;
      WatchdogStateSoftWarning; WatchdogStateTerminating],
     [EvSetState WatchdogStateSoftWarning; EvLogSoftWarning 851;
      EvSetState WatchdogStateHardLimit; EvLogHardLimit 951;
      EvSetState WatchdogStateTerminating; EvKill 4242 SIGTERM;
      EvScheduleKill 4242 30 SIGKILL]).
Proof. reflexivity. Qed.

(** [Run] stops at the tick that triggers. *)
Example watchdog_run :
  Run sample_watchdog
    [reading 849; reading 851; reading 951; reading 100; reading 2000]
  = (set_state sample_watchdog WatchdogStateTerminating,
     [EvLogStarted; EvSetState WatchdogStateSoftWarning; EvLogSoftWarning 851;
      EvSetState WatchdogStateHardLimit; EvLogHardLimit 951;
      EvSetState WatchdogStateTerminating; EvKill 4242 SIGTERM;
      EvScheduleKill 4242 30 SIGKILL], true).
Proof. reflexivity. Qed.

(** ** The cgroup probe *)

Section Probe.

Lemma scanMemTotal_first before : forall line after field0 field1 fields kb,
  Forall (fun l => HasPrefix l "MemTotal:" = false) before ->
  HasPrefix line "MemTotal:" = true ->
  Fields line = field0 :: field1 :: fields ->
  ParseUint field1 = inl kb ->
  scanMemTotal (before ++ line :: after) = inl (wrap64 (kb * 1024)).
Proof.
  induction before as [|l before IH]; intros line after f0 f1 fs kb Hb Hp Hf Hk.
  - cbn [app scanMemTotal]. rewrite Hp, Hf, Hk. reflexivity.
  - inversion Hb as [|? ? Hl Hb']; subst.
    cbn [app scanMemTotal]. rewrite Hl. eapply IH; eassumption.
Qed.

End Probe.

(** C4 (as amended).  Reading the memory limit of cgroup version 1 or 2
    falls back to the total system memory when the trimmed contents of the
    limit file equal "max" (whichever the version), or when the version is 1
    and the parsed value is greater than 2^60; otherwise the parsed decimal
    value is returned unchanged.  The fallback is the value of the first
    [MemTotal:] line of proc/meminfo times 1024, as a [uint64]. *)
Theorem cgroup_limit_fallback m (cgroupVersion : Z) (data : string) :
  cgroupVersion = 1 \/ cgroupVersion = 2 ->
  fs_ReadFile (filesystem m) (limit_path cgroupVersion) = Some data ->
  (falls_back cgroupVersion data ->
   readCgroupMemoryLimit m cgroupVersion = readSystemMemory m)
  /\ (forall limit,
        ParseUint (TrimSpace data) = inl limit ->
        ~ falls_back cgroupVersion data ->
        readCgroupMemoryLimit m cgroupVersion = inl limit)
  /\ (forall meminfo before line after field0 field1 fields kb,
        fs_ReadFile (filesystem m) (relPath procMemInfoPath) = Some meminfo ->
        Split meminfo "010" = before ++ line :: after ->
        Forall (fun l => HasPrefix l "MemTotal:" = false) before ->
        HasPrefix line "MemTotal:" = true ->
        Fields line = field0 :: field1 :: fields ->
        ParseUint field1 = inl kb ->
        readSystemMemory m = inl (wrap64 (kb * 1024))).
Proof.
  intros Hv Hread.
  assert (readCgroupMemoryLimit m cgroupVersion
          = if String.eqb (TrimSpace data) "max" then readSystemMemory m
            else match ParseUint (TrimSpace data) with
                 | inr e => inr (ErrParseMemoryLimit (TrimSpace data) e)
                 | inl limit =>
                     if (cgroupVersion =? 1) && (2 ^ 60 <? limit)
                     then readSystemMemory m else inl limit
                 end) as ->.
  { unfold readCgroupMemoryLimit, limit_path in *.
    destruct Hv as [-> | ->]; cbn [Z.eqb Pos.eqb] in *; rewrite Hread; reflexivity. }
  split; [|split].
  - intros [Hmax | (-> & limit & Hp & Hlt)].
    + rewrite Hmax. reflexivity.
    + destruct (String.eqb_spec (TrimSpace data) "max"); [reflexivity|].
      rewrite Hp. cbn [Z.eqb Pos.eqb andb].
      destruct (Z.ltb_spec (2 ^ 60) limit); [reflexivity|lia].
  - intros limit Hp Hnf.
    destruct (String.eqb_spec (TrimSpace data) "max") as [E|_].
    { exfalso. apply Hnf. left. exact E. }
    rewrite Hp.
    destruct (Z.eqb_spec cgroupVersion 1) as [E1|_]; [|reflexivity].
    destruct (Z.ltb_spec (2 ^ 60) limit) as [Hlt|_]; [|reflexivity].
    exfalso. apply Hnf. right. split; [exact E1|]. exists limit. split; assumption.
  - intros meminfo before line after f0 f1 fs kb Hmi Hs Hb Hp Hf Hk.
    unfold readSystemMemory. rewrite Hmi, Hs.
    eapply scanMemTotal_first; eassumption.
Qed.

Lemma cgroup_limit_fallback_witness :
  readCgroupMemoryLimit
    {| filesystem := cgroup_v1_fs "9223372036854771712
" meminfo_8GB |} 1
  = inl (8192000 * 1024).
Proof.
  pose proof (cgroup_limit_fallback
                {| filesystem := cgroup_v1_fs "9223372036854771712
" meminfo_8GB |} 1 "9223372036854771712
") as H.
  destruct H as (H1 & _ & H3); [left; reflexivity|reflexivity|].
  rewrite H1.
  - change (8192000 * 1024) with (wrap64 (8192000 * 1024)).
    apply (H3 meminfo_8GB [] "MemTotal:       8192000 kB"
             ["MemFree:         4096000 kB"; ""] "MemTotal:" "8192000" ["kB"]
             8192000);
      try reflexivity. constructor.
  - right. split; [reflexivity|]. exists 9223372036854771712.
    split; [reflexivity|]. reflexivity.
Defined.

(** C4 as stated fails on both counts: under cgroup v1 a limit of exactly
    2^60 is returned as it is, not replaced by the system memory, and "max"
    falls back under cgroup v1 as well. *)
Lemma cgroup_v1_limit_2_60_is_kept :
  readCgroupMemoryLimit
    {| filesystem := cgroup_v1_fs "1152921504606846976" meminfo_8GB |} 1
  = inl (2 ^ 60)
  /\ readSystemMemory
       {| filesystem := cgroup_v1_fs "1152921504606846976" meminfo_8GB |}
     = inl (8192000 * 1024)
  /\ readCgroupMemoryLimit
       {| filesystem := cgroup_v1_fs "max" meminfo_8GB |} 1
     = inl (8192000 * 1024).
Proof. repeat split; vm_compute; reflexivity. Qed.

(** ** The command line *)

Section CommandLine.

Lemma filter_nonempty_cons (a : string) (l : list string) :
  filter (fun a => a ≠ "") (a :: l)
  = unless_empty a ++ filter (fun a => a ≠ "") l.
Proof.
  unfold unless_empty. destruct (String.eqb_spec a "") as [->|NE].
  - rewrite filter_cons_False; [reflexivity|]. intros H. apply H. reflexivity.
  - rewrite filter_cons_True by assumption. reflexivity.
Qed.

Lemma Resolve_python3 environ : ResolveEnvVarPath environ "python3" = "python3".
Proof. reflexivity. Qed.

Lemma buildPythonArgs_shape environ config extraArgs :
  buildPythonArgs environ config extraArgs
  = interpreter environ config
      :: PythonOpts config
      ++ filter (fun a => a ≠ "") extraArgs ++ Args config.
Proof.
  unfold buildPythonArgs, interpreter.
  destruct (String.eqb (PythonPath config) ""); reflexivity.
Qed.

End CommandLine.

(** Decide the comparisons of the [switch] on a known mode. *)
Ltac mode_switch :=
  repeat match goal with
         | |- context [String.eqb ?a ?b] =>
             let E := fresh "E" in
             destruct (String.eqb_spec a b) as [E|E];
             [try discriminate E|try (exfalso; apply E; reflexivity)]
         end.

(** The command line by launch mode, whatever the configuration: the extra
    words of a Python mode that are the empty string are left out. *)
Lemma command_line_general environ config :
  let mode := cfgLaunchMode config in
  let argv := BuildCommandArgs environ config in
  (mode = LaunchModeCommand -> argv = Executable config :: Args config)
  /\ (mode = LaunchModeModule ->
      argv = interpreter environ config :: PythonOpts config
             ++ "-m" :: unless_empty (Executable config) ++ Args config)
  /\ (mode = LaunchModeScript ->
      argv = interpreter environ config :: PythonOpts config
             ++ unless_empty (Executable config) ++ Args config)
  /\ (mode = LaunchModeUvicorn ->
      argv = interpreter environ config :: PythonOpts config
             ++ "-m" :: "uvicorn" :: unless_empty (app_target config)
             ++ Args config)
  /\ (mode = LaunchModeGunicorn ->
      argv = interpreter environ config :: PythonOpts config
             ++ "-m" :: "gunicorn" :: unless_empty (app_target config)
             ++ Args config)
  /\ (mode <> LaunchModeCommand -> ~ python_mode mode ->
      PythonPath config = "" ->
      argv = Executable config :: Args config)
  /\ (mode <> LaunchModeCommand -> ~ python_mode mode ->
      PythonPath config <> "" ->
      argv = ResolveEnvVarPath environ (PythonPath config)
             :: PythonOpts config ++ Executable config :: Args config).
Proof.
  intros mode argv. subst mode argv. unfold BuildCommandArgs.
  assert ((if negb (String.eqb (EntryPoint config) "")
           then Executable config +:+ ":" +:+ EntryPoint config
           else Executable config) = app_target config) as Ht.
  { unfold app_target. destruct (String.eqb _ _); reflexivity. }
  rewrite !Ht. clear Ht.
  repeat split.
  - intros ->. reflexivity.
  - intros ->. mode_switch.
    rewrite buildPythonArgs_shape, !filter_nonempty_cons, filter_nil.
    cbn [unless_empty String.eqb]. rewrite app_nil_r. reflexivity.
  - intros ->. mode_switch.
    rewrite buildPythonArgs_shape, !filter_nonempty_cons, filter_nil.
    cbn [unless_empty String.eqb]. rewrite app_nil_r. reflexivity.
  - intros ->. mode_switch.
    rewrite buildPythonArgs_shape, !filter_nonempty_cons, filter_nil.
    cbn [unless_empty String.eqb]. rewrite app_nil_r. reflexivity.
  - intros ->. mode_switch.
    rewrite buildPythonArgs_shape, !filter_nonempty_cons, filter_nil.
    cbn [unless_empty String.eqb]. rewrite app_nil_r. reflexivity.
  - intros Hc Hp E. unfold python_mode in Hp.
    destruct (String.eqb_spec (cfgLaunchMode config) LaunchModeCommand); [tauto|].
    destruct (String.eqb_spec (cfgLaunchMode config) LaunchModeModule); [tauto|].
    destruct (String.eqb_spec (cfgLaunchMode config) LaunchModeScript); [tauto|].
    destruct (String.eqb_spec (cfgLaunchMode config) LaunchModeUvicorn); [tauto|].
    destruct (String.eqb_spec (cfgLaunchMode config) LaunchModeGunicorn); [tauto|].
    rewrite E. reflexivity.
  - intros Hc Hp NE. unfold python_mode in Hp.
    destruct (String.eqb_spec (cfgLaunchMode config) LaunchModeCommand); [tauto|].
    destruct (String.eqb_spec (cfgLaunchMode config) LaunchModeModule); [tauto|].
    destruct (String.eqb_spec (cfgLaunchMode config) LaunchModeScript); [tauto|].
    destruct (String.eqb_spec (cfgLaunchMode config) LaunchModeUvicorn); [tauto|].
    destruct (String.eqb_spec (cfgLaunchMode config) LaunchModeGunicorn); [tauto|].
    destruct (String.eqb_spec (PythonPath config) ""); [tauto|].
    reflexivity.
Qed.

Lemma app_target_nonempty config :
  Executable config <> "" -> app_target config <> "".
Proof.
  intros NE. unfold app_target.
  destruct (String.eqb (EntryPoint config) ""); [exact NE|].
  destruct (Executable config); [congruence|discriminate].
Qed.

(** A static configuration that passes [validateStaticConfig] merges into a
    configuration with an executable. *)
Lemma validated_config_has_executable environ static custom :
  validateStaticConfig static = None ->
  Executable (MergeConfigs environ static custom) <> "".
Proof.
  unfold validateStaticConfig. cbn [MergeConfigs Executable].
  destruct (negb (String.eqb (sConfigType static) ConfigTypePython));
    [discriminate|].
  destruct (negb (sConfigVersion static =? 1)); [discriminate|].
  destruct (String.eqb_spec (sExecutable static) ""); [discriminate|].
  intros _. assumption.
Qed.

(** C5.  For every configuration with an executable (a static configuration
    without one does not pass [validateStaticConfig]), the command line has
    the shape of the launch-mode table: [command] gives the executable and
    the arguments, the interpreter and the Python options being ignored;
    [module], [script], [uvicorn] and [gunicorn] give the interpreter
    ([python3] when no path is configured, else the expanded path), the
    Python options, the mode's words ([-m], nothing, [-m uvicorn],
    [-m gunicorn]), the target and the arguments, where the target is the
    executable, for the two servers followed by a colon and the entry point
    when there is one; every other mode is [pex]: the executable and the
    arguments, the Python options being dropped, unless a path is
    configured, which then comes first, followed by the Python options. *)
Theorem command_line_table environ config :
  Executable config <> "" ->
  let mode := cfgLaunchMode config in
  let argv := BuildCommandArgs environ config in
  (mode = LaunchModeCommand -> argv = Executable config :: Args config)
  /\ (mode = LaunchModeModule ->
      argv = interpreter environ config :: PythonOpts config
             ++ "-m" :: Executable config :: Args config)
  /\ (mode = LaunchModeScript ->
      argv = interpreter environ config :: PythonOpts config
             ++ Executable config :: Args config)
  /\ (mode = LaunchModeUvicorn ->
      argv = interpreter environ config :: PythonOpts config
             ++ "-m" :: "uvicorn" :: app_target config :: Args config)
  /\ (mode = LaunchModeGunicorn ->
      argv = interpreter environ config :: PythonOpts config
             ++ "-m" :: "gunicorn" :: app_target config :: Args config)
  /\ (mode <> LaunchModeCommand -> ~ python_mode mode ->
      PythonPath config = "" ->
      argv = Executable config :: Args config)
  /\ (mode <> LaunchModeCommand -> ~ python_mode mode ->
      PythonPath config <> "" ->
      argv = ResolveEnvVarPath environ (PythonPath config)
             :: PythonOpts config ++ Executable config :: Args config).
Proof.
  intros NE mode argv. subst mode argv.
  pose proof (app_target_nonempty config NE) as NT.
  assert (forall s, s <> "" -> unless_empty s = [s]) as Hu.
  { intros s Hs. unfold unless_empty.
    destruct (String.eqb_spec s ""); [contradiction|reflexivity]. }
  pose proof (command_line_general environ config) as H. cbv zeta in H.
  rewrite !(Hu _ NE), !(Hu _ NT) in H. exact H.
Qed.

Lemma command_line_table_witness :
  BuildCommandArgs []
    (launch_config LaunchModeUvicorn "myapp.main" "" "app" ["-O"]
       ["--host"; "0.0.0.0"])
  = ["python3"; "-O"; "-m"; "uvicorn"; "myapp.main:app"; "--host"; "0.0.0.0"].
Proof.
  pose proof (command_line_table []
                (launch_config LaunchModeUvicorn "myapp.main" "" "app" ["-O"]
                   ["--host"; "0.0.0.0"])) as H.
  cbv zeta in H. destruct H as (_ & _ & _ & H4 & _).
  - discriminate.
  - rewrite H4; reflexivity.
Defined.

(** The fourth scenario: [pex] mode without an interpreter path. *)
Example command_line_pex :
  BuildCommandArgs []
    (launch_config LaunchModePEX "/opt/app.pex" "" "" ["-O"] ["server"; "cfg.yml"])
  = ["/opt/app.pex"; "server"; "cfg.yml"].
Proof. reflexivity. Qed.

(** Without an executable, which no validated configuration is, the
    command line of the [uvicorn] mode has no target at all: the guard of
    [buildPythonArgs] against empty words drops it. *)
Lemma empty_target_is_dropped :
  let config := launch_config LaunchModeUvicorn "" "" "" [] ["--port"; "80"] in
  BuildCommandArgs [] config
  <> ["python3"; "-m"; "uvicorn"; app_target config; "--port"; "80"]
  /\ BuildCommandArgs [] config = ["python3"; "-m"; "uvicorn"; "--port"; "80"].
Proof. split; [discriminate|reflexivity]. Qed.

(** ** The environment *)

Section Environment.

Lemma lookup_setDefaultMap_eq (m : gmap string string) k v :
  setDefaultMap m k v !! k = Some (default v (m !! k)).
Proof.
  unfold setDefaultMap. destruct (m !! k) as [x|] eqn:E; cbn.
  - exact E.
  - apply lookup_insert_eq.
Qed.

Lemma lookup_setDefaultMap_ne (m : gmap string string) k v k' :
  k <> k' -> setDefaultMap m k v !! k' = m !! k'.
Proof.
  intros NE. unfold setDefaultMap. destruct (m !! k); [reflexivity|].
  apply lookup_insert_ne. exact NE.
Qed.

Ltac env_lookup :=
  repeat first
    [ rewrite lookup_setDefaultMap_eq
    | rewrite lookup_setDefaultMap_ne by discriminate
    | rewrite lookup_insert_ne by discriminate
    | rewrite lookup_empty ].

(** In every mode but [unmanaged] the memory block carries the four
    thread-pool variables, set to the number of CPUs of the host. *)
Lemma BuildMemoryEnv_thread_pool NumCPU config limits k :
  String.eqb (Mode (Memory config)) MemoryModeUnmanaged = false ->
  thread_pool_key k ->
  BuildMemoryEnv NumCPU config limits !! k = Some (Itoa NumCPU).
Proof.
  intros Hm Hk. unfold BuildMemoryEnv. rewrite Hm.
  destruct (0 <? MallocArenaMax (Memory config));
    destruct (0 <=? MallocTrimThreshold (Memory config));
    destruct Hk as [-> | [-> | [-> | ->]]]; env_lookup; reflexivity.
Qed.

(** The memory block has no [SERVICE_CPU_COUNT]. *)
Lemma BuildMemoryEnv_no_cpu_count NumCPU config limits :
  BuildMemoryEnv NumCPU config limits !! "SERVICE_CPU_COUNT" = None.
Proof.
  unfold BuildMemoryEnv.
  destruct (String.eqb _ _); [apply lookup_empty|].
  destruct (0 <? MallocArenaMax (Memory config));
    destruct (0 <=? MallocTrimThreshold (Memory config));
    env_lookup; reflexivity.
Qed.

(** What the layers of [BuildProcessEnv] leave for a key that is neither
    service metadata nor one of the three defaults. *)
Lemma BuildProcessEnv_lookup environ NumCPU config limits name version k :
  k <> "SERVICE_NAME" -> k <> "SERVICE_VERSION" ->
  k <> "SLS_SERVICE_NAME" -> k <> "SLS_SERVICE_VERSION" ->
  k <> "PYTHONDONTWRITEBYTECODE" -> k <> "PYTHONUNBUFFERED" -> k <> "TMPDIR" ->
  BuildProcessEnv environ NumCPU config limits name version !! k
  = match Env config !! k with
    | Some v => Some v
    | None =>
        match BuildMemoryEnv NumCPU config limits !! k with
        | Some v => Some v
        | None => inheritedEnv environ !! k
        end
    end.
Proof.
  intros N1 N2 N3 N4 N5 N6 N7. unfold BuildProcessEnv.
  change setDefault with setDefaultMap.
  rewrite !lookup_setDefaultMap_ne by congruence.
  rewrite !lookup_insert_ne by congruence.
  rewrite !lookup_union.
  destruct (Env config !! k), (BuildMemoryEnv NumCPU config limits !! k),
    (inheritedEnv environ !! k); reflexivity.
Qed.

End Environment.

(** [BuildProcessEnv] has no CPU block of its own: the four thread-pool
    variables belong to the memory block.  In the composed environment each
    of them has the value the merged configuration gives it; failing that,
    in every mode but [unmanaged], the number of CPUs of the host, and, in
    [unmanaged] mode, the inherited value if any. *)
Lemma thread_pool_variables environ NumCPU config limits name version k :
  thread_pool_key k ->
  BuildProcessEnv environ NumCPU config limits name version !! k
  = match Env config !! k with
    | Some v => Some v
    | None =>
        if String.eqb (Mode (Memory config)) MemoryModeUnmanaged
        then inheritedEnv environ !! k
        else Some (Itoa NumCPU)
    end.
Proof.
  intros Hk.
  rewrite BuildProcessEnv_lookup
    by (destruct Hk as [-> | [-> | [-> | ->]]]; discriminate).
  destruct (Env config !! k); [reflexivity|].
  destruct (String.eqb (Mode (Memory config)) MemoryModeUnmanaged) eqn:Hm.
  - unfold BuildMemoryEnv. rewrite Hm, lookup_empty. reflexivity.
  - rewrite (BuildMemoryEnv_thread_pool _ _ _ _ Hm Hk). reflexivity.
Qed.

Lemma thread_pool_variables_witness :
  BuildProcessEnv ["PATH=/usr/bin"] 8
    (config_of (fixed_memory 1073741824) DefaultWatchdogConfig)
    sample_env_limits "svc" "1.0" !! "MKL_NUM_THREADS"
  = Some "8".
Proof.
  rewrite (thread_pool_variables ["PATH=/usr/bin"] 8
             (config_of (fixed_memory 1073741824) DefaultWatchdogConfig)
             sample_env_limits "svc" "1.0" "MKL_NUM_THREADS").
  - reflexivity.
  - right. left. reflexivity.
Defined.

(** C6 fails on the code.  The claim, and the order of precedence the
    repository documents, make the CPU variables the last layer, each set
    only if the key is not yet present.  With [OMP_NUM_THREADS=1] inherited
    and 8 CPUs on the host, the composed environment has
    [OMP_NUM_THREADS=8]: the memory block, the second layer, writes the
    thread-pool variables over the inherited ones (its set-if-absent acts on
    its own fresh map), and [SERVICE_CPU_COUNT], which only [BuildCPUEnv]
    produces, is not set at all. *)
Lemma inherited_thread_count_overridden :
  let env :=
    BuildProcessEnv ["OMP_NUM_THREADS=1"; "PATH=/usr/bin"] 8
      (config_of (fixed_memory 1073741824) DefaultWatchdogConfig)
      sample_env_limits "svc" "1.0" in
  inheritedEnv ["OMP_NUM_THREADS=1"; "PATH=/usr/bin"] !! "OMP_NUM_THREADS"
  = Some "1"
  /\ env !! "OMP_NUM_THREADS" = Some "8"
  /\ env !! "SERVICE_CPU_COUNT" = None
  /\ BuildCPUEnv 8 !! "SERVICE_CPU_COUNT" = Some "8".
Proof. repeat split; vm_compute; reflexivity. Qed.

(** Whatever the inputs, [BuildProcessEnv] sets [SERVICE_CPU_COUNT] only
    when the configuration or the inherited environment has it. *)
Lemma service_cpu_count_not_injected environ NumCPU config limits name version :
  BuildProcessEnv environ NumCPU config limits name version
    !! "SERVICE_CPU_COUNT"
  = match Env config !! "SERVICE_CPU_COUNT" with
    | Some v => Some v
    | None => inheritedEnv environ !! "SERVICE_CPU_COUNT"
    end.
Proof.
  rewrite BuildProcessEnv_lookup by discriminate.
  rewrite BuildMemoryEnv_no_cpu_count. reflexivity.
Qed.

(** ** Expansion of the interpreter path *)

(** C7 fails on the code: a reference to an undefined variable, in either
    syntax, is replaced by the empty string, while a defined one is replaced
    by its value. *)
Theorem undefined_reference_is_removed :
  ResolveEnvVarPath ["HOME=/root"] "$PYTHON_3_11_HOME/bin/python3"
  = "/bin/python3"
  /\ ResolveEnvVarPath ["HOME=/root"] "${PYTHON_3_11_HOME}/bin/python3"
     = "/bin/python3"
  /\ ResolveEnvVarPath ["PYTHON_3_11_HOME=/opt/py311"]
       "$PYTHON_3_11_HOME/bin/python3"
     = "/opt/py311/bin/python3"
  /\ ResolveEnvVarPath ["PYTHON_3_11_HOME=/opt/py311"]
       "${PYTHON_3_11_HOME}/bin/python3"
     = "/opt/py311/bin/python3".
Proof. repeat split; vm_compute; reflexivity. Qed.
